(** * A contact directory with an upcoming-birthday query

    Shallow embedding of [web-hw-02.py]: the field classes [Name], [Phone]
    and [Birthday], the contact [Record], the [AddressBook] and its
    [get_upcoming_birthdays] query, together with the parts of Python's
    [str], [datetime.date], [timedelta] and [strptime] they rest on.

    Conventions.
    - A Python [str] is a list of Unicode code points.
    - A call that may raise returns a [res]: [Ok v] or [Raise e].
    - A method that mutates its receiver returns the new receiver next to
      its result, also when it raises: an exception does not roll back
      what was mutated before it.
    - [datetime.today().date()] is an input, [current_date]. *)

From Stdlib Require Import ZArith List Lia Bool String Ascii.
From stdpp Require Import base option list gmap.
Import ListNotations.
Local Open Scope Z_scope.

(** ** Text *)

Module Text.

Definition char := Z.
Definition str := list char.

(** An ASCII literal as a [str]. *)
Definition lit (s : string) : str :=
  List.map (fun a => Z.of_N (N_of_ascii a)) (list_ascii_of_string s).

Definition in_range (c : char) (r : Z * Z) : bool :=
  (fst r <=? c) && (c <=? snd r).

(** [str == str]. *)
Definition str_eqb (a b : str) : bool := bool_decide (a = b).

(** Code points with Numeric_Type Decimal (general category Nd),
    Unicode 14.0: the characters [str.isdecimal] accepts, the ones the
    regular-expression class [\d] matches on a [str] pattern, and the
    ones [int] reads.  Every range starts at a digit zero and holds
    whole runs 0..9. *)
Definition decimal_ranges : list (Z * Z) :=
[ (48, 57); (1632, 1641); (1776, 1785); (1984, 1993); (2406, 2415);
  (2534, 2543); (2662, 2671); (2790, 2799); (2918, 2927); (3046, 3055);
  (3174, 3183); (3302, 3311); (3430, 3439); (3558, 3567); (3664, 3673);
  (3792, 3801); (3872, 3881); (4160, 4169); (4240, 4249); (6112, 6121);
  (6160, 6169); (6470, 6479); (6608, 6617); (6784, 6793); (6800, 6809);
  (6992, 7001); (7088, 7097); (7232, 7241); (7248, 7257); (42528, 42537);
  (43216, 43225); (43264, 43273); (43472, 43481); (43504, 43513);
  (43600, 43609); (44016, 44025); (65296, 65305); (66720, 66729);
  (68912, 68921); (69734, 69743); (69872, 69881); (69942, 69951);
  (70096, 70105); (70384, 70393); (70736, 70745); (70864, 70873);
  (71248, 71257); (71360, 71369); (71472, 71481); (71904, 71913);
  (72016, 72025); (72784, 72793); (73040, 73049); (73120, 73129);
  (92768, 92777); (92864, 92873); (93008, 93017); (120782, 120831);
  (123200, 123209); (123632, 123641); (125264, 125273); (130032, 130041) ].

(** Code points with Numeric_Type Decimal or Digit, Unicode 14.0: the
    characters [str.isdigit] accepts.  Besides the decimal digits these
    are superscripts, subscripts, circled digits and the like. *)
Definition digit_ranges : list (Z * Z) :=
[ (48, 57); (178, 179); (185, 185); (1632, 1641); (1776, 1785);
  (1984, 1993); (2406, 2415); (2534, 2543); (2662, 2671); (2790, 2799);
  (2918, 2927); (3046, 3055); (3174, 3183); (3302, 3311); (3430, 3439);
  (3558, 3567); (3664, 3673); (3792, 3801); (3872, 3881); (4160, 4169);
  (4240, 4249); (4969, 4977); (6112, 6121); (6160, 6169); (6470, 6479);
  (6608, 6618); (6784, 6793); (6800, 6809); (6992, 7001); (7088, 7097);
  (7232, 7241); (7248, 7257); (8304, 8304); (8308, 8313); (8320, 8329);
  (9312, 9320); (9332, 9340); (9352, 9360); (9450, 9450); (9461, 9469);
  (9471, 9471); (10102, 10110); (10112, 10120); (10122, 10130);
  (42528, 42537); (43216, 43225); (43264, 43273); (43472, 43481);
  (43504, 43513); (43600, 43609); (44016, 44025); (65296, 65305);
  (66720, 66729); (68160, 68163); (68912, 68921); (69216, 69224);
  (69714, 69722); (69734, 69743); (69872, 69881); (69942, 69951);
  (70096, 70105); (70384, 70393); (70736, 70745); (70864, 70873);
  (71248, 71257); (71360, 71369); (71472, 71481); (71904, 71913);
  (72016, 72025); (72784, 72793); (73040, 73049); (73120, 73129);
  (92768, 92777); (92864, 92873); (93008, 93017); (120782, 120831);
  (123200, 123209); (123632, 123641); (125264, 125273); (127232, 127242);
  (130032, 130041) ].

Definition isdecimal_char (c : char) : bool :=
  existsb (in_range c) decimal_ranges.

Definition isdigit_char (c : char) : bool :=
  existsb (in_range c) digit_ranges.

(** The value of a decimal digit. *)
Definition decimal_value (c : char) : option Z :=
  match List.find (in_range c) decimal_ranges with
  | Some r => Some ((c - fst r) mod 10)
  | None => None
  end.

(** [s.isdigit()]: every character is a digit and there is at least one. *)
Definition isdigit (s : str) : bool :=
  match s with
  | [] => false
  | _ => forallb isdigit_char s
  end.

(** [len(s)]. *)
Definition len (s : str) : Z := Z.of_nat (List.length s).

(** Characters [str.isspace] accepts; [int] strips them. *)
Definition space_ranges : list (Z * Z) :=
  [ (9, 13); (28, 32); (133, 133); (160, 160); (5760, 5760);
    (8192, 8202); (8232, 8233); (8239, 8239); (8287, 8287);
    (12288, 12288) ].

Definition isspace_char (c : char) : bool :=
  existsb (in_range c) space_ranges.

Fixpoint lstrip (s : str) : str :=
  match s with
  | c :: s' => if isspace_char c then lstrip s' else s
  | [] => []
  end.

Definition strip (s : str) : str := rev (lstrip (rev (lstrip s))).

Fixpoint digits_value (acc : Z) (s : str) : option Z :=
  match s with
  | [] => Some acc
  | c :: s' =>
      match decimal_value c with
      | Some v => digits_value (10 * acc + v) s'
      | None => None
      end
  end.

(** [int(s)] for an unsigned numeral without underscores, which is all
    a matched [%d], [%m] or [%Y] group can hold; [None] stands for the
    ValueError of a text that is no such numeral. *)
Definition int_of_numeral (s : str) : option Z :=
  match strip s with
  | [] => None
  | t => digits_value 0 t
  end.

(** ['%02d' % n] for [0 <= n <= 99]. *)
Definition pad2 (n : Z) : str := [48 + n / 10; 48 + n mod 10].

Fixpoint uint_digits (u : Decimal.uint) : str :=
  match u with
  | Decimal.Nil => []
  | Decimal.D0 u => 48 :: uint_digits u
  | Decimal.D1 u => 49 :: uint_digits u
  | Decimal.D2 u => 50 :: uint_digits u
  | Decimal.D3 u => 51 :: uint_digits u
  | Decimal.D4 u => 52 :: uint_digits u
  | Decimal.D5 u => 53 :: uint_digits u
  | Decimal.D6 u => 54 :: uint_digits u
  | Decimal.D7 u => 55 :: uint_digits u
  | Decimal.D8 u => 56 :: uint_digits u
  | Decimal.D9 u => 57 :: uint_digits u
  end.

(** [str(n)], also ['%d' % n]. *)
Definition str_of_int (n : Z) : str :=
  match Z.to_int n with
  | Decimal.Pos u => uint_digits u
  | Decimal.Neg u => 45 :: uint_digits u
  end.

End Text.
Import Text.

(** ** Exceptions *)

Inductive exn : Type :=
| ValueError (msg : str)
| KeyError (key : str)
| OverflowError (msg : str)
| AttributeError (msg : str).

Inductive res (A : Type) : Type :=
| Ok (a : A)
| Raise (e : exn).
Arguments Ok {A} a.
Arguments Raise {A} e.

Definition res_bind {A B} (r : res A) (k : A -> res B) : res B :=
  match r with
  | Ok a => k a
  | Raise e => Raise e
  end.

Global Instance res_mbind : MBind res := fun A B k r => res_bind r k.
Global Instance res_mret : MRet res := @Ok.


(** ** [datetime.date] and [timedelta] *)

Module Calendar.

Definition MINYEAR : Z := 1.
Definition MAXYEAR : Z := 9999.
Definition MAXORDINAL : Z := 3652059.

Record date : Type := Date { year : Z; month : Z; day : Z }.

Definition is_leap (y : Z) : bool :=
  (y mod 4 =? 0) && (negb (y mod 100 =? 0) || (y mod 400 =? 0)).

Definition DAYS_IN_MONTH (m : Z) : Z :=
  match m with
  | 1 => 31 | 2 => 28 | 3 => 31 | 4 => 30 | 5 => 31 | 6 => 30
  | 7 => 31 | 8 => 31 | 9 => 30 | 10 => 31 | 11 => 30 | 12 => 31
  | _ => -1
  end.

Definition DAYS_BEFORE_MONTH (m : Z) : Z :=
  match m with
  | 1 => 0 | 2 => 31 | 3 => 59 | 4 => 90 | 5 => 120 | 6 => 151
  | 7 => 181 | 8 => 212 | 9 => 243 | 10 => 273 | 11 => 304 | 12 => 334
  | _ => -1
  end.

Definition days_in_month (y m : Z) : Z :=
  if (m =? 2) && is_leap y then 29 else DAYS_IN_MONTH m.

Definition days_before_year (y : Z) : Z :=
  let y := y - 1 in y * 365 + y / 4 - y / 100 + y / 400.

Definition days_before_month (y m : Z) : Z :=
  DAYS_BEFORE_MONTH m + (if (2 <? m) && is_leap y then 1 else 0).

Definition ymd2ord (y m d : Z) : Z :=
  days_before_year y + days_before_month y m + d.

Definition DI400Y : Z := 146097.
Definition DI100Y : Z := 36524.
Definition DI4Y : Z := 1461.

(** The inverse of [ymd2ord], by the library's own algorithm. *)
Definition ord2ymd (n : Z) : date :=
  let n := n - 1 in
  let n400 := n / DI400Y in
  let n := n mod DI400Y in
  let y := n400 * 400 + 1 in
  let n100 := n / DI100Y in
  let n := n mod DI100Y in
  let n4 := n / DI4Y in
  let n := n mod DI4Y in
  let n1 := n / 365 in
  let n := n mod 365 in
  let y := y + n100 * 100 + n4 * 4 + n1 in
  if (n1 =? 4) || (n100 =? 4) then Date (y - 1) 12 31
  else
    let leapyear := (n1 =? 3) && (negb (n4 =? 24) || (n100 =? 3)) in
    let m := Z.shiftr (n + 50) 5 in
    let preceding :=
      DAYS_BEFORE_MONTH m + (if (2 <? m) && leapyear then 1 else 0) in
    if n <? preceding then
      let m := m - 1 in
      let preceding :=
        preceding
        - (DAYS_IN_MONTH m + (if (m =? 2) && leapyear then 1 else 0)) in
      Date y m (n - preceding + 1)
    else Date y m (n - preceding + 1).

(** [datetime(year=y, month=m, day=d).date()]. *)
Definition new_date (y m d : Z) : res date :=
  if negb ((MINYEAR <=? y) && (y <=? MAXYEAR)) then
    Raise (ValueError (lit "year " ++ str_of_int y ++ lit " is out of range"))
  else if negb ((1 <=? m) && (m <=? 12)) then
    Raise (ValueError (lit "month must be in 1..12"))
  else if negb ((1 <=? d) && (d <=? days_in_month y m)) then
    Raise (ValueError (lit "day is out of range for month"))
  else Ok (Date y m d).

Definition toordinal (d : date) : Z := ymd2ord (year d) (month d) (day d).

Definition fromordinal (n : Z) : date := ord2ymd n.

(** Monday is 0, Sunday is 6. *)
Definition weekday (d : date) : Z := (toordinal d + 6) mod 7.

(** Dates compare as the tuples (year, month, day). *)
Definition date_cmp (a b : date) : comparison :=
  match year a ?= year b with
  | Eq => match month a ?= month b with
          | Eq => day a ?= day b
          | c => c
          end
  | c => c
  end.

Definition date_le (a b : date) : bool :=
  match date_cmp a b with Gt => false | _ => true end.

Definition date_gt (a b : date) : bool :=
  match date_cmp a b with Gt => true | _ => false end.

Record timedelta : Type := TimeDelta { td_days : Z }.

(** [timedelta(days)] for an integer [days]. *)
Definition new_timedelta (days : Z) : res timedelta :=
  if Z.abs days <=? 999999999 then Ok (TimeDelta days)
  else Raise (OverflowError (lit "days=" ++ str_of_int days ++
                             lit "; must have magnitude <= 999999999")).

(** [d + delta]. *)
Definition date_add (d : date) (delta : timedelta) : res date :=
  let o := toordinal d + td_days delta in
  if (0 <? o) && (o <=? MAXORDINAL) then Ok (fromordinal o)
  else Raise (OverflowError (lit "date value out of range")).

(** [d.strftime('%d.%m.%Y')] with the C library of Linux, which does not
    pad the year. *)
Definition strftime_dmY (d : date) : str :=
  pad2 (day d) ++ lit "." ++ pad2 (month d) ++ lit "." ++ str_of_int (year d).

(** A date the constructor accepts. *)
Definition valid_date (d : date) : Prop :=
  MINYEAR <= year d <= MAXYEAR /\ 1 <= month d <= 12 /\
  1 <= day d <= days_in_month (year d) (month d).

Global Instance valid_date_dec (d : date) : Decision (valid_date d) :=
  ltac:(unfold valid_date; exact _).

(** The 29th of February of a leap year, as a number of days. *)
Definition leap_day (y : Z) : Z := if is_leap y then 1 else 0.

End Calendar.
Import Calendar.

(** ** [datetime.strptime(text, '%d.%m.%Y')] *)

Module Strptime.

(** The library matches the text against a regular expression made of the
    groups of the directives, with the flag IGNORECASE, which changes
    nothing for the classes below.  A character class of the regular
    expression: *)
Definition cls := char -> bool.
Definition one (a : Z) : cls := fun c => c =? a.
Definition range (lo hi : Z) : cls := fun c => in_range c (lo, hi).
Definition backslash_d : cls := isdecimal_char.

(** One alternative of a group: a sequence of character classes. *)
Definition alt := list cls.

(** The text an alternative matches at the start of [s], and the rest. *)
Fixpoint match_alt (a : alt) (s : str) : option (str * str) :=
  match a, s with
  | [], _ => Some ([], s)
  | p :: a', c :: s' =>
      if p c then
        match match_alt a' s' with
        | Some (m, r) => Some (c :: m, r)
        | None => None
        end
      else None
  | _ :: _, [] => None
  end.

(** An alternation followed by the rest of the pattern, [k]: the
    alternatives are tried in order and the first one after which the
    rest of the pattern matches wins. *)
Fixpoint match_alts {A} (alts : list alt) (s : str)
    (k : str -> str -> option A) : option A :=
  match alts with
  | [] => None
  | a :: alts' =>
      match match_alt a s with
      | Some (m, r) =>
          match k m r with
          | Some x => Some x
          | None => match_alts alts' s k
          end
      | None => match_alts alts' s k
      end
  end.

(** [3[0-1]|[1-2]\d|0[1-9]|[1-9]| [1-9]] *)
Definition directive_d : list alt :=
  [ [one 51; range 48 49]; [range 49 50; backslash_d];
    [one 48; range 49 57]; [range 49 57]; [one 32; range 49 57] ].

(** [1[0-2]|0[1-9]|[1-9]] *)
Definition directive_m : list alt :=
  [ [one 49; range 48 50]; [one 48; range 49 57]; [range 49 57] ].

(** [\d\d\d\d] *)
Definition directive_Y : list alt :=
  [ [backslash_d; backslash_d; backslash_d; backslash_d] ].

(** [\.] *)
Definition dot : list alt := [ [one 46] ].

(** [format_regex.match(data_string)]: the groups d, m and Y, and what
    of the text is left after the match. *)
Definition regex_match (s : str) : option (str * str * str * str) :=
  match_alts directive_d s (fun d s =>
  match_alts dot s (fun _ s =>
  match_alts directive_m s (fun m s =>
  match_alts dot s (fun _ s =>
  match_alts directive_Y s (fun y s =>
  Some (d, m, y, s)))))).

Definition int_of_group (g : str) : res Z :=
  match int_of_numeral g with
  | Some n => Ok n
  | None => Raise (ValueError (lit "invalid literal for int()"))
  end.

(** [datetime.strptime(data_string, '%d.%m.%Y').date()].  The texts of
    the library's messages are cut short: the caller replaces them. *)
Definition strptime_dmY (data_string : str) : res date :=
  match regex_match data_string with
  | None => Raise (ValueError (lit "time data does not match format"))
  | Some (d, m, y, rest) =>
      match rest with
      | _ :: _ =>
          Raise (ValueError (lit "unconverted data remains: " ++ rest))
      | [] =>
          y ← int_of_group y;
          m ← int_of_group m;
          d ← int_of_group d;
          new_date y m d
      end
  end.

End Strptime.
Import Strptime.

(** ** The fields *)

Module Fields.

Record Name : Type := mkName { name_value : str }.
Record Phone : Type := mkPhone { phone_value : str }.
Record Birthday : Type := mkBirthday { birthday_value : date }.

(** [Name(value)]. *)
Definition Name_init (value : str) : Name := mkName value.

Definition ten_digits_error : exn :=
  ValueError (lit "The number must be 10 digits long").

Definition invalid_date_format : exn :=
  ValueError (lit "Invalid date format. Use DD.MM.YYYY").

(** [Phone(value)]. *)
Definition Phone_init (value : str) : res Phone :=
  if negb (len value =? 10) || negb (isdigit value) then
    Raise ten_digits_error
  else Ok (mkPhone value).

(** [Birthday(value)]. *)
Definition Birthday_init (value : str) : res Birthday :=
  match strptime_dmY value with
  | Ok d => Ok (mkBirthday d)
  | Raise (ValueError _) => Raise invalid_date_format
  | Raise e => Raise e
  end.

(** [str(field)]. *)
Class Field (F : Type) : Type := to_str : F -> str.
Global Instance Name_str : Field Name := name_value.
Global Instance Phone_str : Field Phone := phone_value.
Global Instance Birthday_str : Field Birthday :=
  fun b => strftime_dmY (birthday_value b).

End Fields.
Import Fields.

(** ** The contact record *)

Module Contact.

Record Record_ : Type := mkRecord {
  name : Name;
  phones : list Phone;
  birthday : option Birthday
}.

(** A method of a record: its result or exception, and the record as
    the call leaves it. *)
Definition method (A : Type) : Type := Record_ -> res A * Record_.

Definition method_bind {A B} (m : method A) (k : A -> method B) : method B :=
  fun self =>
    match m self with
    | (Ok a, self') => k a self'
    | (Raise e, self') => (Raise e, self')
    end.

Definition raise {A} (e : exn) : method A := fun self => (Raise e, self).
Definition done_ : method unit := fun self => (Ok tt, self).
Definition set_phones (l : list Phone) : method unit :=
  fun self => (Ok tt, mkRecord (name self) l (birthday self)).
Definition set_birthday (b : option Birthday) : method unit :=
  fun self => (Ok tt, mkRecord (name self) (phones self) b).
Definition get_phones : method (list Phone) :=
  fun self => (Ok (phones self), self).
Definition lift {A} (r : res A) : method A := fun self => (r, self).

Global Instance method_mbind : MBind method :=
  fun A B k m => method_bind m k.

(** [Record(name)]. *)
Definition Record_init (name : str) : Record_ :=
  mkRecord (Name_init name) [] None.

Definition not_found (phone : str) : exn :=
  ValueError (lit "'" ++ phone ++ lit "' not found").

Definition add_phone (phone : str) : method unit :=
  p ← lift (Phone_init phone);
  l ← get_phones;
  set_phones (l ++ [p]).

(** The [for] loop of [remove_phone]: the list without the first phone
    whose value is [phone], if there is one. *)
Fixpoint remove_first (phone : str) (l : list Phone) : option (list Phone) :=
  match l with
  | [] => None
  | p :: l' =>
      if str_eqb (phone_value p) phone then Some l'
      else option_map (cons p) (remove_first phone l')
  end.

Definition remove_phone (phone : str) : method unit :=
  l ← get_phones;
  match remove_first phone l with
  | Some l' => set_phones l'
  | None => raise (not_found phone)
  end.

Definition find_phone (phone : str) (self : Record_) : option Phone :=
  List.find (fun p => str_eqb (phone_value p) phone) (phones self).

Definition edit_phone (old_phone new_phone : str) : method unit :=
  fun self =>
    match find_phone old_phone self with
    | Some _ => (remove_phone old_phone;; add_phone new_phone) self
    | None => raise (not_found old_phone) self
    end.

Definition add_birthday (birthday : str) : method unit :=
  b ← lift (Birthday_init birthday);
  set_birthday (Some b).

End Contact.
Import Contact.

(** ** Python's [dict], which iterates in insertion order *)

Module Dict.

Definition dict (V : Type) : Type := list (str * V).

Definition keys {V} (d : dict V) : list str := List.map fst d.
Definition values {V} (d : dict V) : list V := List.map snd d.

(** [d.get(k)]. *)
Fixpoint get {V} (k : str) (d : dict V) : option V :=
  match d with
  | [] => None
  | (k', v) :: d' => if str_eqb k' k then Some v else get k d'
  end.

(** [d[k] = v]: a key already there keeps its place. *)
Fixpoint set {V} (k : str) (v : V) (d : dict V) : dict V :=
  match d with
  | [] => [(k, v)]
  | (k', v') :: d' =>
      if str_eqb k' k then (k', v) :: d' else (k', v') :: set k v d'
  end.

(** [del d[k]]; [None] stands for the KeyError of an absent key. *)
Fixpoint del {V} (k : str) (d : dict V) : option (dict V) :=
  match d with
  | [] => None
  | (k', v') :: d' =>
      if str_eqb k' k then Some d' else option_map (cons (k', v')) (del k d')
  end.

(** What every dictionary satisfies: no key twice. *)
Definition wf {V} (d : dict V) : Prop := NoDup (keys d).

End Dict.

(** ** The address book

    Here a book holds, for each key, the record the key refers to as the
    record is at the time of the call; [Session] below has the records as
    shared objects. *)

Module Book.

Record AddressBook : Type := mkBook { data : Dict.dict Record_ }.

Definition empty : AddressBook := mkBook [].

Definition add_record (record : Record_) (self : AddressBook) : AddressBook :=
  mkBook (Dict.set (name_value (name record)) record (data self)).

Definition find (name : str) (self : AddressBook) : option Record_ :=
  Dict.get name (data self).

Definition delete (name : str) (self : AddressBook) : res AddressBook :=
  match Dict.del name (data self) with
  | Some d => Ok (mkBook d)
  | None => Raise (KeyError name)
  end.

(** The line appended for a contact and the date to report. *)
Definition line (contact : Record_) (d : date) : str :=
  lit "Contact name: " ++ name_value (name contact)
  ++ lit ", birthday: " ++ strftime_dmY d.

(** The body of the [for] loop for one contact: the line it appends, if
    it appends one. *)
Definition loop_body (current_date : date) (congratulation_period : timedelta)
    (contact : Record_) : res (option str) :=
  match birthday contact with
  | None => Ok None
  | Some b =>
      let birthday_dt := birthday_value b in
      birthday_this_year ←
        new_date (year current_date) (month birthday_dt) (day birthday_dt);
      birthday_this_year ←
        (if date_gt current_date birthday_this_year then
           new_date (year current_date + 1) (month birthday_dt)
             (day birthday_dt)
         else Ok birthday_this_year);
      if date_le current_date birthday_this_year then
        limit ← date_add current_date congratulation_period;
        if date_le birthday_this_year limit then
          reported ←
            (if weekday birthday_this_year =? 5 then
               date_add birthday_this_year (TimeDelta 2)
             else if weekday birthday_this_year =? 6 then
               date_add birthday_this_year (TimeDelta 1)
             else Ok birthday_this_year);
          Ok (Some (line contact reported))
        else Ok None
      else Ok None
  end.

(** [for item in self.data: contact = self.data.get(item) ...]. *)
Fixpoint loop (self : AddressBook) (current_date : date)
    (congratulation_period : timedelta) (items : list str)
    (result : list str) : res (list str) :=
  match items with
  | [] => Ok result
  | item :: items' =>
      match Dict.get item (data self) with
      | None =>
          Raise (AttributeError
                   (lit "'NoneType' object has no attribute 'birthday'"))
      | Some contact =>
          appended ← loop_body current_date congratulation_period contact;
          loop self current_date congratulation_period items'
            (match appended with
             | Some l => result ++ [l]
             | None => result
             end)
      end
  end.

Definition get_upcoming_birthdays (current_date : date) (days : Z)
    (self : AddressBook) : res (list str) :=
  congratulation_period ← new_timedelta days;
  loop self current_date congratulation_period (Dict.keys (data self)) [].

(** An entry of the result is the line of its record. *)
Definition line_of (r : Record_) (l : str) : Prop := exists d, l = line r d.

End Book.
Import Book.

(** ** Records as shared objects

    A record is an object: the book holds a reference to it, and so may
    the caller, who can go on calling its methods after [add_record].  A
    session has the objects made so far and the book's dictionary of
    references. *)

Module Session.

Definition ref := nat.

Record state : Type := mkState {
  objects : list Record_;
  book : Dict.dict ref
}.

Definition init : state := mkState [] [].

(** The calls that change a record; [Clear_phones] is the assignment
    [record.phones = []] of [change_contact]. *)
Inductive mutation : Type :=
| Add_phone (phone : str)
| Remove_phone (phone : str)
| Edit_phone (old_phone new_phone : str)
| Add_birthday (birthday : str)
| Clear_phones.

Definition run (m : mutation) : method unit :=
  match m with
  | Add_phone p => add_phone p
  | Remove_phone p => remove_phone p
  | Edit_phone o n => edit_phone o n
  | Add_birthday b => add_birthday b
  | Clear_phones => set_phones []
  end.

Inductive step : state -> state -> Prop :=
| step_Record (name : str) (s : state) :
    step s (mkState (objects s ++ [Record_init name]) (book s))
| step_add_record (r : ref) (record : Record_) (s : state) :
    objects s !! r = Some record ->
    step s (mkState (objects s)
              (Dict.set (name_value (name record)) r (book s)))
| step_delete (name : str) (d : Dict.dict ref) (s : state) :
    Dict.del name (book s) = Some d ->
    step s (mkState (objects s) d)
| step_mutation (r : ref) (record : Record_) (m : mutation) (s : state) :
    objects s !! r = Some record ->
    step s (mkState (<[r := snd (run m record)]> (objects s)) (book s)).

Definition reachable (s : state) : Prop := rtc step init s.

(** The book of a session with every reference followed. *)
Definition resolve (s : state) : AddressBook :=
  mkBook (omap (fun kr => pair (fst kr) <$> objects s !! snd kr) (book s)).

(** Every key is the name of the record it refers to. *)
Definition keys_are_names (s : state) : Prop :=
  forall k r, In (k, r) (book s) ->
    exists record, objects s !! r = Some record /\
                   name_value (name record) = k.

End Session.

(** ** The specification's words *)

Module Spec.

(** The candidate occurrence of a birthday [b]: [b]'s month and day in
    today's year, unless that is strictly before today, and then in the
    year after. *)
Definition candidate (today b : date) : date :=
  let thisYear := Date (year today) (month b) (day b) in
  if date_gt today thisYear then Date (year today + 1) (month b) (day b)
  else thisYear.

(** [today <= occurrence <= today + windowDays days], in day numbers. *)
Definition in_window (today : date) (windowDays : Z) (occurrence : date) : bool :=
  (toordinal today <=? toordinal occurrence) &&
  (toordinal occurrence <=? toordinal today + windowDays).

Definition included (today : date) (windowDays : Z) (r : Record_) : bool :=
  match birthday r with
  | Some b => in_window today windowDays (candidate today (birthday_value b))
  | None => false
  end.

(** The reported date: the day [n] days after [d] is the date whose day
    number is [d]'s plus [n]. *)
Definition reported (occurrence : date) : date :=
  if weekday occurrence =? 5 then fromordinal (toordinal occurrence + 2)
  else if weekday occurrence =? 6 then fromordinal (toordinal occurrence + 1)
  else occurrence.

(** The entry of one record, if it is included. *)
Definition entry (today : date) (windowDays : Z) (r : Record_) : option str :=
  match birthday r with
  | Some b =>
      let occurrence := candidate today (birthday_value b) in
      if in_window today windowDays occurrence
      then Some (line r (reported occurrence)) else None
  | None => None
  end.

(** Every character a decimal digit. *)
Definition decimal_digits (text : str) : Prop :=
  Forall (fun c => isdecimal_char c = true) text.

Definition ascii_digit (c : char) : Prop := 48 <= c <= 57.

End Spec.

(** ** What the proofs below need *)

Module Aux.

(** The dates the loop body constructs for a birthday exist: the
    birthday's month and day in today's year, and the candidate
    occurrence. *)
Definition constructible (today b : date) : Prop :=
  valid_date (Date (year today) (month b) (day b)) /\
  valid_date (Spec.candidate today b).

(** The loop body raises nothing for a contact. *)
Definition body_defined (today : date) (days : Z) (contact : Record_) : Prop :=
  forall b, birthday contact = Some b ->
    constructible today (birthday_value b) /\
    1 <= toordinal today + days <= MAXORDINAL.

Definition all_defined (self : AddressBook) (today : date) (days : Z) : Prop :=
  forall r, In r (Dict.values (data self)) -> body_defined today days r.

(** One day of the first 400 years is converted to a date and back. *)
Definition cycle_ok (n : Z) : bool :=
  let d := ord2ymd n in
  (1 <=? year d) && (year d <=? (if n <=? 145731 then 399 else 400)) &&
  (1 <=? month d) && (month d <=? 12) &&
  (1 <=? day d) && (day d <=? days_in_month (year d) (month d)) &&
  (ymd2ord (year d) (month d) (day d) =? n).

(** [f] holds on the [2 ^ k] numbers from [lo]. *)
Fixpoint all_from (f : Z -> bool) (k : nat) (lo : Z) : bool :=
  match k with
  | O => f lo
  | S k' => all_from f k' lo && all_from f k' (lo + 2 ^ Z.of_nat k')
  end.

Definition range_within (r r' : Z * Z) : bool :=
  (fst r' <=? fst r) && (snd r <=? snd r').

Definition ranges_apart (r r' : Z * Z) : bool :=
  (snd r <? fst r') || (snd r' <? fst r).

End Aux.
Import Aux.

(** ** The texts of a birthday *)

Module BirthdayText.

(** The texts of a day, a month and a year, with the numbers they
    denote.  A digit of the year, and the second digit of a day from 10
    to 29, is any decimal digit; the other digits are ASCII. *)
Inductive day_text : str -> Z -> Prop :=
| day_30_31 c : 48 <= c <= 49 -> day_text [51; c] (30 + (c - 48))
| day_10_29 c1 c2 v :
    49 <= c1 <= 50 -> decimal_value c2 = Some v ->
    day_text [c1; c2] (10 * (c1 - 48) + v)
| day_01_09 c : 49 <= c <= 57 -> day_text [48; c] (c - 48)
| day_1_9 c : 49 <= c <= 57 -> day_text [c] (c - 48)
| day_space_1_9 c : 49 <= c <= 57 -> day_text [32; c] (c - 48).

Inductive month_text : str -> Z -> Prop :=
| month_10_12 c : 48 <= c <= 50 -> month_text [49; c] (10 + (c - 48))
| month_01_09 c : 49 <= c <= 57 -> month_text [48; c] (c - 48)
| month_1_9 c : 49 <= c <= 57 -> month_text [c] (c - 48).

Inductive year_text : str -> Z -> Prop :=
| year_4 c1 c2 c3 c4 v1 v2 v3 v4 :
    decimal_value c1 = Some v1 -> decimal_value c2 = Some v2 ->
    decimal_value c3 = Some v3 -> decimal_value c4 = Some v4 ->
    year_text [c1; c2; c3; c4] (1000 * v1 + 100 * v2 + 10 * v3 + v4).

(** [text] is day, full stop, month, full stop, year, and reads as [d]. *)
Definition birthday_text (text : str) (d : date) : Prop :=
  exists dd mm yy,
    text = dd ++ [46] ++ mm ++ [46] ++ yy /\
    day_text dd (day d) /\ month_text mm (month d) /\ year_text yy (year d).

(** The pattern of two ASCII digits, full stop, two ASCII digits, full
    stop, four ASCII digits. *)
Definition strict_birthday_text (text : str) (d : date) : Prop :=
  exists d1 d2 m1 m2 y1 y2 y3 y4,
    text = [d1; d2; 46; m1; m2; 46; y1; y2; y3; y4] /\
    Forall Spec.ascii_digit [d1; d2; m1; m2; y1; y2; y3; y4] /\
    d = Date (1000 * (y1 - 48) + 100 * (y2 - 48) + 10 * (y3 - 48) + (y4 - 48))
             (10 * (m1 - 48) + (m2 - 48)) (10 * (d1 - 48) + (d2 - 48)).

(** A text one alternative of a group matches. *)
Definition matches (alts : list alt) (m : str) : Prop :=
  exists a, In a alts /\ Forall2 (fun (p : cls) c => p c = true) a m.

End BirthdayText.
Import BirthdayText.

(** ** Books and records of the examples *)

Module Examples.

(** A record with a name and a birthday. *)
Definition contact (name_ birthday_ : string) : Record_ :=
  snd (add_birthday (lit birthday_) (Record_init (lit name_))).

(** The book after [add_record] of each record in turn. *)
Definition book_of (l : list Record_) : AddressBook :=
  fold_left (fun b r => add_record r b) l empty.

End Examples.
Import Examples.

(** ** [int(text)] *)

Module PyInt.

(** The characters the C library takes for white space. *)
Definition ascii_space (c : char) : bool := in_range c (9, 13) || (c =? 32).

Definition ascii_digit (c : char) : bool := in_range c (48, 57).

(** The text is first brought to ASCII: a character below 127 stays, any
    other white space becomes a space and any other decimal digit its
    ASCII digit; a text with any other character is no numeral. *)
Definition to_ascii (c : char) : option char :=
  if c <? 127 then Some c
  else if isspace_char c then Some 32
  else match decimal_value c with
       | Some v => Some (48 + v)
       | None => None
       end.

Fixpoint transform (s : str) : option str :=
  match s with
  | [] => Some []
  | c :: s' =>
      match to_ascii c, transform s' with
      | Some a, Some t => Some (a :: t)
      | _, _ => None
      end
  end.

Fixpoint skip_space (s : str) : str :=
  match s with
  | c :: s' => if ascii_space c then skip_space s' else s
  | [] => []
  end.

(** The digits, with single underscores between them: their value, how
    many they are, and what comes after them. *)
Fixpoint scan (acc count : Z) (s : str) : option (Z * Z * str) :=
  match s with
  | [] => Some (acc, count, [])
  | c :: s' =>
      if ascii_digit c then scan (10 * acc + (c - 48)) (count + 1) s'
      else if c =? 95 then
        match s' with
        | d :: s'' =>
            if ascii_digit d then scan (10 * acc + (d - 48)) (count + 1) s''
            else None
        | [] => None
        end
      else Some (acc, count, s)
  end.

(** The most digits a text may have. *)
Definition max_str_digits : Z := 4300.

Definition invalid_literal : exn :=
  ValueError (lit "invalid literal for int() with base 10").

(** [int(text)]; the text of the message is cut short. *)
Definition int (text : str) : res Z :=
  match transform text with
  | None => Raise invalid_literal
  | Some t =>
      let t := skip_space t in
      let '(sign, t) :=
        match t with
        | 43 :: t' => (1, t')
        | 45 :: t' => (-1, t')
        | _ => (1, t)
        end in
      match t with
      | c :: _ =>
          if ascii_digit c then
            match scan 0 0 t with
            | Some (v, count, rest) =>
                match skip_space rest with
                | [] =>
                    if max_str_digits <? count then
                      Raise (ValueError
                               (lit "Exceeds the limit (4300 digits) for integer string conversion"))
                    else Ok (sign * v)
                | _ :: _ => Raise invalid_literal
                end
            | None => Raise invalid_literal
            end
          else Raise invalid_literal
      | [] => Raise invalid_literal
      end
  end.

End PyInt.

(** ** The commands

    A command works on a session: the book it is given refers to records
    that are objects, and what a command does to the record it found is
    done to the record in the book. *)

Module Commands.
Import Session.

Global Instance Record_inhabited : Inhabited Record_ :=
  populate (Record_init []).

(** What a command returns: a text, or a record. *)
Inductive value : Type :=
| Text (s : str)
| TheRecord (r : ref).

(** What a command raises: an exception as above, or IndexError. *)
Inductive error : Type :=
| Exn (e : exn)
| IndexError (msg : str).

Inductive outcome : Type :=
| Returns (v : value)
| Raises (e : error).

Definition command : Type := list str -> state -> outcome * state.

(** The record a reference refers to. *)
Definition deref (s : state) (r : ref) : Record_ := objects s !!! r.

(** [record.m(...)] for the record [r] refers to. *)
Definition call (r : ref) (m : method unit) (s : state) : res unit * state :=
  let '(result, record') := m (deref s r) in
  (result, mkState (<[r := record']> (objects s)) (book s)).

(** [Record(name)]: the reference to the new record. *)
Definition new_Record (name : str) (s : state) : ref * state :=
  (length (objects s), mkState (objects s ++ [Record_init name]) (book s)).

(** [book.find(name)]. *)
Definition book_find (name : str) (s : state) : option ref :=
  Dict.get name (book s).

(** [book.add_record(record)]. *)
Definition book_add_record (r : ref) (s : state) : state :=
  mkState (objects s) (Dict.set (name_value (name (deref s r))) r (book s)).

(** [str(record)]. *)
Fixpoint join (sep : str) (l : list str) : str :=
  match l with
  | [] => []
  | [x] => x
  | x :: l' => x ++ sep ++ join sep l'
  end.

Definition Record_str (self : Record_) : str :=
  lit "Contact name: " ++ name_value (name self) ++ lit ", phones: "
  ++ join (lit "; ") (List.map phone_value (phones self)).

(** [str(value)], as [print] shows what a command returns. *)
Definition shown (s : state) (v : value) : str :=
  match v with
  | Text t => t
  | TheRecord r => Record_str (deref s r)
  end.

Definition contact_not_found : str :=
  lit "Contact not found. Give correct name, Please.".

(** The decorator. *)
Definition input_error (func : command) : command :=
  fun args s =>
    match func args s with
    | (Raises (Exn (KeyError _)), s') => (Returns (Text contact_not_found), s')
    | (Raises (Exn (ValueError msg)), s') => (Returns (Text msg), s')
    | (Raises (IndexError _), s') => (Returns (Text (lit "Contact not found.")), s')
    | other => other
    end.

(** The ValueError of [name, phone, *_ = args] on fewer than two values. *)
Definition not_enough_values (args : list str) : exn :=
  ValueError (lit "not enough values to unpack (expected at least 2, got "
              ++ str_of_int (Z.of_nat (length args)) ++ lit ")").

Definition list_index_out_of_range : error :=
  IndexError (lit "list index out of range").

(** The functions as written, before the decorator. *)
Definition add_contact_func : command :=
  fun args s =>
    match args with
    | name :: phone :: _ =>
        let '(record, message, s) :=
          match book_find name s with
          | None =>
              let '(record, s) := new_Record name s in
              (record, lit "Contact added.", book_add_record record s)
          | Some record => (record, lit "Contact updated.", s)
          end in
        match phone with
        | [] => (Returns (Text message), s)
        | _ :: _ =>
            match call record (add_phone phone) s with
            | (Ok _, s) => (Returns (Text message), s)
            | (Raise e, s) => (Raises (Exn e), s)
            end
        end
    | _ => (Raises (Exn (not_enough_values args)), s)
    end.

Definition change_contact_func : command :=
  fun args s =>
    match args with
    | name :: new_phone :: _ =>
        match book_find name s with
        | Some record =>
            let '(_, s) := call record (set_phones []) s in
            match call record (add_phone new_phone) s with
            | (Ok _, s) => (Returns (Text (lit "Contact changed.")), s)
            | (Raise e, s) => (Raises (Exn e), s)
            end
        | None => (Raises (Exn (KeyError [])), s)
        end
    | _ => (Raises (Exn (not_enough_values args)), s)
    end.

Definition show_phone_func : command :=
  fun args s =>
    match args with
    | name :: _ =>
        match book_find name s with
        | Some record => (Returns (TheRecord record), s)
        | None => (Raises (Exn (KeyError [])), s)
        end
    | [] => (Raises list_index_out_of_range, s)
    end.

Definition add_birthday_func : command :=
  fun args s =>
    match args with
    | name :: birthday :: _ =>
        match book_find name s with
        | Some record =>
            match call record (Contact.add_birthday birthday) s with
            | (Ok _, s) => (Returns (Text (lit "Birthday added.")), s)
            | (Raise e, s) => (Raises (Exn e), s)
            end
        | None => (Raises (Exn (KeyError (lit "Contact not found."))), s)
        end
    | _ =>
        (Raises (Exn (ValueError (lit "Please provide both name and birthday."))),
         s)
    end.

(** [f"{record.birthday}"]. *)
Definition birthday_str (b : option Birthday) : str :=
  match b with
  | Some b => to_str b
  | None => lit "None"
  end.

Definition show_birthday_func : command :=
  fun args s =>
    match args with
    | name :: _ =>
        match book_find name s with
        | Some record =>
            (Returns (Text (lit "Contact name: " ++ name ++ lit ", birthday: "
                            ++ birthday_str (birthday (deref s record)))), s)
        | None => (Raises (Exn (KeyError [])), s)
        end
    | [] => (Raises list_index_out_of_range, s)
    end.

(** [birthdays], with today's date. *)
Definition birthdays_func (current_date : date) : command :=
  fun args s =>
    let attempt : res str :=
      days ← match args with
             | a :: _ => PyInt.int a
             | [] => Ok 7
             end;
      birthdays_next_week ←
        get_upcoming_birthdays current_date days (resolve s);
      match birthdays_next_week with
      | [] => Ok (lit "No birthdays next week")
      | _ :: _ => Ok (join [10] birthdays_next_week)
      end in
    match attempt with
    | Ok text => (Returns (Text text), s)
    | Raise (AttributeError _) | Raise (ValueError _) =>
        (Returns (Text (lit "Error in fetching birthdays")), s)
    | Raise e => (Raises (Exn e), s)
    end.

(** The commands, decorated. *)
Definition add_contact : command := input_error add_contact_func.
Definition change_contact : command := input_error change_contact_func.
Definition show_phone : command := input_error show_phone_func.
Definition add_birthday : command := input_error add_birthday_func.
Definition show_birthday : command := input_error show_birthday_func.
Definition birthdays (current_date : date) : command :=
  input_error (birthdays_func current_date).

(** The commands of the loop of [main] that work on the book. *)
Inductive command_name : Type :=
| Add | Change | Phone_ | AddBirthday | ShowBirthday | Birthdays.

Definition run_command (current_date : date) (c : command_name) : command :=
  match c with
  | Add => add_contact
  | Change => change_contact
  | Phone_ => show_phone
  | AddBirthday => add_birthday
  | ShowBirthday => show_birthday
  | Birthdays => birthdays current_date
  end.

(** A phone that [Phone] accepts. *)
Definition phone_ok (p : Phone) : Prop :=
  len (phone_value p) = 10 /\ isdigit (phone_value p) = true.

(** Every reference of the book refers to a record. *)
Definition book_refers (s : state) : Prop :=
  forall k r, In (k, r) (book s) -> is_Some (objects s !! r).

End Commands.

(** ** What the properties of the commands speak of *)

(** What the book holds under a name. *)
Definition contact_of (name_ : str) (s : Session.state) : option Record_ :=
  match Commands.book_find name_ s with
  | Some r => Session.objects s !! r
  | None => None
  end.

(** Every phone of every record is one [Phone] accepts. *)
Definition phones_ok (s : Session.state) : Prop :=
  forall r record, Session.objects s !! r = Some record ->
                   Forall Commands.phone_ok (phones record).

(** The year [n], when it has four digits, prints as its four digits. *)
Definition four_digits_ok (n : Z) : bool :=
  (n <? 1000) || (9999 <? n) ||
  bool_decide (str_of_int n =
               [48 + n / 1000; 48 + n / 100 mod 10; 48 + n / 10 mod 10;
                48 + n mod 10]).

(** * Proofs *)

(** ** The calendar: day numbers and dates *)

Section CalendarFacts.

Lemma is_leap_period y q : is_leap (y + 400 * q) = is_leap y.
Proof.
  unfold is_leap.
  replace ((y + 400 * q) mod 4) with (y mod 4)
    by (rewrite (Z.add_mod y), (Z.mul_mod 400); [|lia|lia];
        replace (400 mod 4) with 0 by reflexivity;
        rewrite Z.mul_0_l, Zmod_0_l, Z.add_0_r, Z.mod_mod; lia).
  replace ((y + 400 * q) mod 100) with (y mod 100)
    by (rewrite (Z.add_mod y), (Z.mul_mod 400); [|lia|lia];
        replace (400 mod 100) with 0 by reflexivity;
        rewrite Z.mul_0_l, Zmod_0_l, Z.add_0_r, Z.mod_mod; lia).
  replace ((y + 400 * q) mod 400) with (y mod 400)
    by (rewrite (Z.mul_comm 400), Z_mod_plus_full; reflexivity).
  reflexivity.
Qed.

Lemma days_before_year_succ y :
  days_before_year (y + 1) = days_before_year y + 365 + leap_day y.
Proof.
  unfold days_before_year, leap_day, is_leap.
  replace (y + 1 - 1) with y by lia.
  destruct (Z.eqb_spec (y mod 4) 0), (Z.eqb_spec (y mod 100) 0),
    (Z.eqb_spec (y mod 400) 0); simpl;
    Z.div_mod_to_equations; lia.
Qed.

Lemma days_before_year_period y q :
  days_before_year (y + 400 * q) = days_before_year y + DI400Y * q.
Proof.
  unfold days_before_year, DI400Y. Z.div_mod_to_equations. lia.
Qed.

Lemma leap_day_range y : 0 <= leap_day y <= 1.
Proof. unfold leap_day. destruct (is_leap y); lia. Qed.

Lemma days_before_year_lt y1 y2 :
  y1 < y2 -> days_before_year y1 + 365 + leap_day y1 <= days_before_year y2.
Proof.
  intros H. replace y2 with (y1 + 1 + (y2 - y1 - 1)) by lia.
  assert (Hk : 0 <= y2 - y1 - 1) by lia. revert Hk.
  generalize (y2 - y1 - 1). clear H y2.
  apply natlike_ind.
  - rewrite Z.add_0_r, days_before_year_succ. lia.
  - intros k Hk IH. replace (y1 + 1 + Z.succ k) with (y1 + 1 + k + 1) by lia.
    rewrite days_before_year_succ. pose proof (leap_day_range (y1 + 1 + k)). lia.
Qed.

Lemma days_before_year_le y1 y2 :
  y1 <= y2 -> days_before_year y1 <= days_before_year y2.
Proof.
  intros H. destruct (Z.eq_dec y1 y2) as [->|Hne]; [lia|].
  pose proof (days_before_year_lt y1 y2). pose proof (leap_day_range y1). lia.
Qed.

Lemma month_cases m : 1 <= m <= 12 ->
  m = 1 \/ m = 2 \/ m = 3 \/ m = 4 \/ m = 5 \/ m = 6 \/ m = 7 \/ m = 8 \/
  m = 9 \/ m = 10 \/ m = 11 \/ m = 12.
Proof. lia. Qed.

Ltac each_month H :=
  apply month_cases in H;
  repeat (destruct H as [H|H]; [subst|]); [..|subst].

Lemma days_before_month_succ y m : 1 <= m <= 12 ->
  days_before_month y m + days_in_month y m =
  if m =? 12 then 365 + leap_day y else days_before_month y (m + 1).
Proof.
  intros H. unfold days_before_month, days_in_month, leap_day.
  each_month H; destruct (is_leap y); reflexivity.
Qed.

Lemma days_before_month_mono y m1 m2 : 1 <= m1 -> m1 < m2 -> m2 <= 12 ->
  days_before_month y m1 + days_in_month y m1 <= days_before_month y m2.
Proof.
  intros H1 H12 H2.
  assert (Hm1 : 1 <= m1 <= 12) by lia. assert (Hm2 : 1 <= m2 <= 12) by lia.
  unfold days_before_month, days_in_month.
  each_month Hm1; each_month Hm2; try lia; destruct (is_leap y); simpl; lia.
Qed.

Lemma day_of_year_bounds y m d :
  1 <= m <= 12 -> 1 <= d <= days_in_month y m ->
  1 <= days_before_month y m + d <= 365 + leap_day y.
Proof.
  intros Hm Hd. split.
  - assert (0 <= days_before_month y m); [|lia].
    unfold days_before_month. each_month Hm; destruct (is_leap y); simpl; lia.
  - pose proof (days_before_month_succ y m Hm) as E.
    destruct (Z.eqb_spec m 12) as [->|Hne]; [lia|].
    assert (days_before_month y (m + 1) <= 365 + leap_day y); [|lia].
    unfold days_before_month, leap_day.
    each_month Hm; try lia; destruct (is_leap y); simpl; lia.
Qed.

Lemma date_cmp_Eq a b : date_cmp a b = Eq -> a = b.
Proof.
  destruct a as [y1 m1 d1], b as [y2 m2 d2]. unfold date_cmp. simpl.
  destruct (Z.compare_spec y1 y2); try discriminate.
  destruct (Z.compare_spec m1 m2); try discriminate.
  destruct (Z.compare_spec d1 d2); try discriminate.
  intros _. congruence.
Qed.

Lemma toordinal_lt a b :
  valid_date a -> valid_date b -> date_cmp a b = Lt ->
  toordinal a < toordinal b.
Proof.
  destruct a as [y1 m1 d1], b as [y2 m2 d2].
  unfold valid_date, date_cmp, toordinal, ymd2ord. simpl.
  intros (_ & Hm1 & Hd1) (_ & Hm2 & Hd2).
  pose proof (day_of_year_bounds y1 m1 d1 Hm1 Hd1).
  pose proof (day_of_year_bounds y2 m2 d2 Hm2 Hd2).
  destruct (Z.compare_spec y1 y2) as [->|Hy|Hy]; try discriminate.
  - destruct (Z.compare_spec m1 m2) as [->|Hm|Hm]; try discriminate.
    + destruct (Z.compare_spec d1 d2); try discriminate. lia.
    + intros _. pose proof (days_before_month_mono y2 m1 m2). lia.
  - intros _. pose proof (days_before_year_lt y1 y2 Hy). lia.
Qed.

Lemma date_cmp_antisym a b : date_cmp b a = CompOpp (date_cmp a b).
Proof.
  destruct a as [y1 m1 d1], b as [y2 m2 d2]. unfold date_cmp. simpl.
  rewrite (Z.compare_antisym y1 y2), (Z.compare_antisym m1 m2),
    (Z.compare_antisym d1 d2).
  destruct (y1 ?= y2), (m1 ?= m2), (d1 ?= d2); reflexivity.
Qed.

Lemma date_cmp_ordinal a b :
  valid_date a -> valid_date b ->
  date_cmp a b = (toordinal a ?= toordinal b).
Proof.
  intros Ha Hb. destruct (date_cmp a b) eqn:E; symmetry.
  - apply date_cmp_Eq in E. subst. apply Z.compare_refl.
  - apply Z.compare_lt_iff. now apply toordinal_lt.
  - apply Z.compare_gt_iff. apply toordinal_lt; auto.
    rewrite date_cmp_antisym, E. reflexivity.
Qed.

Lemma date_le_ordinal a b :
  valid_date a -> valid_date b ->
  date_le a b = (toordinal a <=? toordinal b).
Proof.
  intros Ha Hb. unfold date_le, Z.leb. now rewrite date_cmp_ordinal.
Qed.

Lemma toordinal_bounds d : valid_date d -> 1 <= toordinal d <= MAXORDINAL.
Proof.
  destruct d as [y m d]. unfold valid_date, toordinal, ymd2ord. simpl.
  unfold MINYEAR, MAXYEAR. intros (Hy & Hm & Hd).
  pose proof (day_of_year_bounds y m d Hm Hd).
  pose proof (days_before_year_le 1 y ltac:(lia)).
  pose proof (days_before_year_lt y 10000 ltac:(lia)).
  change (days_before_year 1) with 0 in *.
  change (days_before_year 10000) with 3652059 in *.
  unfold MAXORDINAL. lia.
Qed.

Lemma all_from_spec f k : forall lo n,
  all_from f k lo = true -> lo <= n < lo + 2 ^ Z.of_nat k -> f n = true.
Proof.
  induction k as [|k IH]; intros lo n H Hn.
  - simpl in *. replace n with lo by lia. exact H.
  - cbn [all_from] in H. apply andb_true_iff in H as [H1 H2].
    rewrite Nat2Z.inj_succ, Z.pow_succ_r in Hn by lia.
    destruct (Z.lt_ge_cases n (lo + 2 ^ Z.of_nat k)).
    + apply (IH lo); [exact H1|lia].
    + apply (IH (lo + 2 ^ Z.of_nat k)); [exact H2|lia].
Qed.

Lemma cycle_checked :
  all_from (fun n => (DI400Y <? n) || cycle_ok n) 18 1 = true.
Proof. vm_cast_no_check (eq_refl true). Qed.

Lemma cycle_ok_all n : 1 <= n <= DI400Y -> cycle_ok n = true.
Proof.
  intros H.
  pose proof (all_from_spec _ 18 1 n cycle_checked) as C. cbv beta in C.
  destruct (Z.ltb_spec DI400Y n); [lia|].
  apply C. unfold DI400Y in H. change (2 ^ Z.of_nat 18) with 262144. lia.
Qed.

Lemma ord2ymd_period n q : 1 <= n <= DI400Y ->
  ord2ymd (n + DI400Y * q) =
  Date (year (ord2ymd n) + 400 * q) (month (ord2ymd n)) (day (ord2ymd n)).
Proof.
  intros H. unfold ord2ymd. cbv zeta.
  assert (E1 : (n + DI400Y * q - 1) / DI400Y = q).
  { unfold DI400Y in *. Z.div_mod_to_equations. lia. }
  assert (E2 : (n + DI400Y * q - 1) mod DI400Y = n - 1).
  { unfold DI400Y in *. Z.div_mod_to_equations. lia. }
  assert (E3 : (n - 1) / DI400Y = 0).
  { unfold DI400Y in *. Z.div_mod_to_equations. lia. }
  assert (E4 : (n - 1) mod DI400Y = n - 1).
  { unfold DI400Y in *. Z.div_mod_to_equations. lia. }
  rewrite E1, E2, E3, E4.
  repeat match goal with
         | |- context [if ?c then _ else _] => destruct c
         end; simpl; f_equal; lia.
Qed.

Lemma days_in_month_period y m q :
  days_in_month (y + 400 * q) m = days_in_month y m.
Proof. unfold days_in_month. now rewrite is_leap_period. Qed.

Lemma ymd2ord_period y m d q :
  ymd2ord (y + 400 * q) m d = ymd2ord y m d + DI400Y * q.
Proof.
  unfold ymd2ord, days_before_month.
  rewrite is_leap_period, days_before_year_period. lia.
Qed.

Lemma fromordinal_spec n : 1 <= n <= MAXORDINAL ->
  valid_date (fromordinal n) /\ toordinal (fromordinal n) = n.
Proof.
  intros H. unfold MAXORDINAL in H.
  set (q := (n - 1) / DI400Y). set (r := (n - 1) mod DI400Y + 1).
  assert (En : n = r + DI400Y * q).
  { unfold q, r, DI400Y. Z.div_mod_to_equations. lia. }
  assert (Hr : 1 <= r <= DI400Y).
  { unfold r, DI400Y. Z.div_mod_to_equations. lia. }
  assert (Hq : 0 <= q <= 24).
  { unfold q, DI400Y. Z.div_mod_to_equations. lia. }
  pose proof (cycle_ok_all r Hr) as C. unfold cycle_ok in C. cbv zeta in C.
  rewrite !andb_true_iff in C.
  destruct C as ((((((C1 & C2) & C3) & C4) & C5) & C6) & C7).
  clearbody q r. subst n. unfold fromordinal, toordinal.
  rewrite ord2ymd_period by exact Hr.
  unfold valid_date. simpl.
  rewrite days_in_month_period, ymd2ord_period.
  unfold MINYEAR, MAXYEAR.
  destruct (Z.leb_spec r 145731); unfold DI400Y in *; lia.
Qed.

End CalendarFacts.

(** ** The body of the loop *)

Section QueryFacts.

Lemma new_date_valid y m d :
  valid_date (Date y m d) -> new_date y m d = Ok (Date y m d).
Proof.
  unfold valid_date, new_date. simpl. intros (Hy & Hm & Hd).
  destruct (Z.leb_spec MINYEAR y), (Z.leb_spec y MAXYEAR); try lia.
  destruct (Z.leb_spec 1 m), (Z.leb_spec m 12); try lia.
  destruct (Z.leb_spec 1 d), (Z.leb_spec d (days_in_month y m)); try lia.
  reflexivity.
Qed.

Lemma new_date_Ok y m d r :
  new_date y m d = Ok r -> r = Date y m d /\ valid_date (Date y m d).
Proof.
  unfold valid_date, new_date. simpl.
  destruct (Z.leb_spec MINYEAR y), (Z.leb_spec y MAXYEAR); simpl; try discriminate.
  destruct (Z.leb_spec 1 m), (Z.leb_spec m 12); simpl; try discriminate.
  destruct (Z.leb_spec 1 d), (Z.leb_spec d (days_in_month y m)); simpl;
    try discriminate.
  intros [= <-]. repeat split; assumption.
Qed.

Lemma new_date_invalid y m d :
  ~ valid_date (Date y m d) -> exists msg, new_date y m d = Raise (ValueError msg).
Proof.
  intros H. destruct (new_date y m d) as [r|e] eqn:E.
  - apply new_date_Ok in E. tauto.
  - unfold new_date in E.
    repeat match type of E with
           | (if ?c then _ else _) = _ => destruct c
           end; inversion E; eauto.
Qed.

Lemma date_add_Ok d n :
  1 <= toordinal d + n <= MAXORDINAL ->
  date_add d (TimeDelta n) = Ok (fromordinal (toordinal d + n)).
Proof.
  intros H. unfold date_add. simpl.
  destruct (Z.ltb_spec 0 (toordinal d + n)),
    (Z.leb_spec (toordinal d + n) MAXORDINAL); try lia. reflexivity.
Qed.

Lemma date_add_inv d n r :
  date_add d (TimeDelta n) = Ok r ->
  1 <= toordinal d + n <= MAXORDINAL /\ r = fromordinal (toordinal d + n).
Proof.
  unfold date_add. simpl.
  destruct (Z.ltb_spec 0 (toordinal d + n)),
    (Z.leb_spec (toordinal d + n) MAXORDINAL); simpl; try discriminate.
  intros [= <-]. split; [lia|reflexivity].
Qed.

Lemma date_add_out_of_range d n :
  ~ 1 <= toordinal d + n <= MAXORDINAL ->
  exists msg, date_add d (TimeDelta n) = Raise (OverflowError msg).
Proof.
  intros H. unfold date_add. simpl.
  destruct (Z.ltb_spec 0 (toordinal d + n)),
    (Z.leb_spec (toordinal d + n) MAXORDINAL); simpl; try lia; eauto.
Qed.

(** The candidate occurrence is never before today. *)
Lemma candidate_not_before today b :
  date_le today (Spec.candidate today b) = true.
Proof.
  unfold Spec.candidate, date_le, date_gt. cbv zeta.
  destruct (date_cmp today (Date (year today) (month b) (day b))) eqn:E;
    try reflexivity; try (rewrite E; reflexivity).
  unfold date_cmp. simpl.
  destruct (Z.compare_spec (year today) (year today + 1)); lia || reflexivity.
Qed.

Lemma weekend_in_range d :
  valid_date d ->
  (weekday d = 5 -> 1 <= toordinal d + 2 <= MAXORDINAL) /\
  (weekday d = 6 -> 1 <= toordinal d + 1 <= MAXORDINAL).
Proof.
  intros H. apply toordinal_bounds in H. unfold weekday, MAXORDINAL in *.
  split; intros E; Z.div_mod_to_equations; lia.
Qed.

(** The weekend shift of the code is the one of the specification. *)
Lemma shift_reported d :
  valid_date d ->
  (if weekday d =? 5 then date_add d (TimeDelta 2)
   else if weekday d =? 6 then date_add d (TimeDelta 1)
   else Ok d) = Ok (Spec.reported d).
Proof.
  intros H. destruct (weekend_in_range d H) as [H5 H6]. unfold Spec.reported.
  destruct (Z.eqb_spec (weekday d) 5) as [E5|_].
  - apply date_add_Ok. auto.
  - destruct (Z.eqb_spec (weekday d) 6) as [E6|_]; [|reflexivity].
    apply date_add_Ok. auto.
Qed.

Lemma loop_body_defined today days contact :
  valid_date today -> body_defined today days contact ->
  loop_body today (TimeDelta days) contact =
  Ok (Spec.entry today days contact).
Proof.
  intros Ht Hdef. unfold loop_body, Spec.entry.
  destruct (birthday contact) as [b|] eqn:Eb; [|reflexivity].
  destruct (Hdef b Eb) as [[Hthis Hcand] Hlim]. clear Hdef.
  pose proof (candidate_not_before today (birthday_value b)) as Hge.
  rewrite (new_date_valid _ _ _ Hthis). cbn [mbind res_mbind res_bind].
  assert (Ec : (if date_gt today (Date (year today) (month (birthday_value b))
                                   (day (birthday_value b)))
                then new_date (year today + 1) (month (birthday_value b))
                       (day (birthday_value b))
                else Ok (Date (year today) (month (birthday_value b))
                           (day (birthday_value b))))
               = Ok (Spec.candidate today (birthday_value b))).
  { unfold Spec.candidate in *. cbv zeta in *.
    destruct (date_gt today _); [|reflexivity].
    now apply new_date_valid. }
  rewrite Ec. cbn [mbind res_mbind res_bind]. rewrite Hge.
  rewrite (date_add_Ok _ _ Hlim). cbn [mbind res_mbind res_bind].
  destruct (fromordinal_spec _ Hlim) as [Hvl Hol].
  rewrite (date_le_ordinal _ _ Hcand Hvl), Hol.
  rewrite (date_le_ordinal _ _ Ht Hcand) in Hge.
  unfold Spec.in_window. rewrite Hge, andb_true_l.
  destruct (toordinal (Spec.candidate today (birthday_value b))
            <=? toordinal today + days); [|reflexivity].
  rewrite (shift_reported _ Hcand). reflexivity.
Qed.

Lemma loop_body_Ok today days contact e :
  loop_body today (TimeDelta days) contact = Ok e ->
  body_defined today days contact.
Proof.
  unfold loop_body, body_defined. intros H b Eb. rewrite Eb in H.
  pose proof (candidate_not_before today (birthday_value b)) as Hge.
  unfold constructible, Spec.candidate in *. cbv zeta in *.
  destruct (new_date (year today) _ _) as [this|] eqn:E1; [|discriminate].
  apply new_date_Ok in E1 as [-> Hthis]. cbn [mbind res_mbind res_bind] in H.
  destruct (date_gt today _) eqn:Egt.
  - destruct (new_date (year today + 1) _ _) as [next|] eqn:E2; [|discriminate].
    apply new_date_Ok in E2 as [-> Hnext]. cbn [mbind res_mbind res_bind] in H.
    rewrite Hge in H.
    destruct (date_add today _) as [lim|] eqn:E3; [|discriminate].
    apply date_add_inv in E3 as [Hlim _]. auto.
  - cbn [mbind res_mbind res_bind] in H. rewrite Hge in H.
    destruct (date_add today _) as [lim|] eqn:E3; [|discriminate].
    apply date_add_inv in E3 as [Hlim _]. auto.
Qed.

End QueryFacts.

(** ** Dictionaries *)

Section DictFacts.
Context {V : Type}.
Implicit Types (d : Dict.dict V) (k : str) (v : V).

Lemma str_eqb_eq (a b : str) : str_eqb a b = true <-> a = b.
Proof. unfold str_eqb. apply bool_decide_eq_true. Qed.

Lemma str_eqb_refl (a : str) : str_eqb a a = true.
Proof. now apply str_eqb_eq. Qed.

Lemma str_eqb_neq (a b : str) : str_eqb a b = false <-> a <> b.
Proof. unfold str_eqb. apply bool_decide_eq_false. Qed.

Lemma get_None d k : Dict.get k d = None <-> ~ In k (Dict.keys d).
Proof.
  induction d as [|[k' v'] d IH]; simpl; [tauto|].
  destruct (str_eqb k' k) eqn:E.
  - apply str_eqb_eq in E. split; [discriminate|tauto].
  - apply str_eqb_neq in E. rewrite IH. tauto.
Qed.

Lemma get_In d k v : Dict.wf d -> In (k, v) d -> Dict.get k d = Some v.
Proof.
  unfold Dict.wf. induction d as [|[k' v'] d IH]; simpl; [tauto|].
  intros Hnd [H|H].
  - inversion H; subst. now rewrite str_eqb_refl.
  - apply NoDup_cons in Hnd as [Hk Hnd].
    destruct (str_eqb k' k) eqn:E; [|auto].
    apply str_eqb_eq in E. subst. exfalso. apply Hk.
    apply list_elem_of_In. apply in_map_iff. now exists (k, v).
Qed.

Lemma get_Some_In d k v : Dict.get k d = Some v -> exists k', In (k', v) d /\ k' = k.
Proof.
  induction d as [|[k' v'] d IH]; simpl; [discriminate|].
  destruct (str_eqb k' k) eqn:E.
  - apply str_eqb_eq in E. intros [= ->]. eauto.
  - intros H. destruct (IH H) as (k'' & ? & ?). eauto.
Qed.

End DictFacts.

(** ** The loop and the query *)

Section LoopFacts.
Variables (self : AddressBook) (today : date) (period : timedelta).

Lemma loop_defined (f : Record_ -> option str) items : forall acc,
  (forall k v, In (k, v) items -> Dict.get k (data self) = Some v) ->
  (forall k v, In (k, v) items -> loop_body today period v = Ok (f v)) ->
  loop self today period (Dict.keys items) acc =
  Ok (acc ++ omap f (Dict.values items)).
Proof.
  induction items as [|[k v] items IH]; intros acc Hget Hbody; simpl.
  - now rewrite app_nil_r.
  - rewrite (Hget k v), (Hbody k v) by (now left).
    cbn [mbind res_mbind res_bind].
    rewrite IH;
      [|intros; apply Hget; now right
       |intros; eapply Hbody; right; eassumption].
    destruct (f v); simpl; [now rewrite <- app_assoc|reflexivity].
Qed.

Lemma loop_Ok items : forall acc out,
  (forall k v, In (k, v) items -> Dict.get k (data self) = Some v) ->
  loop self today period (Dict.keys items) acc = Ok out ->
  forall k v, In (k, v) items -> exists e, loop_body today period v = Ok e.
Proof.
  induction items as [|[k v] items IH]; intros acc out Hget H k0 v0 Hin;
    simpl in *; [tauto|].
  rewrite (Hget k v) in H by (now left).
  destruct (loop_body today period v) as [e|] eqn:E; [|discriminate].
  cbn [mbind res_mbind res_bind] in H.
  destruct Hin as [[= <- <-]|Hin]; [eauto|].
  eapply IH; [|exact H|exact Hin]. intros; apply Hget; now right.
Qed.

End LoopFacts.

Section UpcomingFacts.
Variables (self : AddressBook) (today : date) (days : Z).
Hypothesis wf_self : Dict.wf (data self).
Hypothesis valid_today : valid_date today.

Lemma in_values (r : Record_) :
  In r (Dict.values (data self)) <-> exists k, In (k, r) (data self).
Proof.
  unfold Dict.values. rewrite in_map_iff. split.
  - intros ([k v] & <- & H). eauto.
  - intros (k & H). now exists (k, r).
Qed.

Lemma upcoming_defined :
  Z.abs days <= 999999999 -> all_defined self today days ->
  get_upcoming_birthdays today days self =
  Ok (omap (Spec.entry today days) (Dict.values (data self))).
Proof.
  intros Hd Hall. unfold get_upcoming_birthdays, new_timedelta.
  destruct (Z.leb_spec (Z.abs days) 999999999); [|lia].
  cbn [mbind res_mbind res_bind].
  rewrite (loop_defined _ _ _ (Spec.entry today days)); [reflexivity| |].
  - intros k v. now apply get_In.
  - intros k v Hin. apply loop_body_defined; [assumption|].
    apply Hall. apply in_values. eauto.
Qed.

Lemma upcoming_Ok out :
  get_upcoming_birthdays today days self = Ok out ->
  Z.abs days <= 999999999 /\ all_defined self today days.
Proof.
  unfold get_upcoming_birthdays, new_timedelta.
  destruct (Z.leb_spec (Z.abs days) 999999999) as [Hd|Hd]; [|discriminate].
  cbn [mbind res_mbind res_bind]. intros H. split; [assumption|].
  intros r Hr. apply in_values in Hr as [k Hk].
  destruct (loop_Ok _ _ _ _ _ _ (fun k v => get_In _ k v wf_self) H k r Hk)
    as [e He].
  eapply loop_body_Ok. exact He.
Qed.

Lemma upcoming_Ok_entries out :
  get_upcoming_birthdays today days self = Ok out ->
  out = omap (Spec.entry today days) (Dict.values (data self)).
Proof.
  intros H. destruct (upcoming_Ok out H) as [Hd Hall].
  rewrite (upcoming_defined Hd Hall) in H. congruence.
Qed.

End UpcomingFacts.

Lemma entries_filter today days (l : list Record_) :
  Forall2 line_of (List.filter (Spec.included today days) l)
    (omap (Spec.entry today days) l).
Proof.
  induction l as [|r l IH]; simpl; [constructor|].
  unfold Spec.included, Spec.entry at 1.
  destruct (birthday r) as [b|]; [|exact IH].
  destruct (Spec.in_window _ _ _); [|exact IH].
  constructor; [|exact IH]. eexists. reflexivity.
Qed.

(** ** The upcoming birthdays (C1, C2, C3, C7, C10) *)

Ltac valid_by_computation := repeat split; vm_compute; discriminate.
Ltac wf_by_computation :=
  unfold Dict.wf; apply (bool_decide_unpack _); vm_compute; exact I.

Lemma reported_ordinal d :
  valid_date d ->
  (weekday d = 5 -> toordinal (Spec.reported d) = toordinal d + 2) /\
  (weekday d = 6 -> toordinal (Spec.reported d) = toordinal d + 1) /\
  (weekday d <> 5 -> weekday d <> 6 -> Spec.reported d = d).
Proof.
  intros H. destruct (weekend_in_range d H) as [H5 H6]. unfold Spec.reported.
  repeat split.
  - intros E. rewrite E. simpl. now apply fromordinal_spec, H5.
  - intros E. rewrite E. simpl. now apply fromordinal_spec, H6.
  - intros N5 N6. destruct (Z.eqb_spec (weekday d) 5); [contradiction|].
    destruct (Z.eqb_spec (weekday d) 6); [contradiction|]. reflexivity.
Qed.

(** C1.  Whenever [get_upcoming_birthdays] returns, its result has one
    line for each record whose candidate occurrence lies in the window, and
    the window is tested on the occurrence as it is, before any shift.  The
    date in the line is the occurrence moved two days on when the occurrence
    is a Saturday, one day on when it is a Sunday, and the occurrence itself
    otherwise.  With today 2024-06-10, a Monday, and a window of 7 days, a
    contact born on 15.06 (a Saturday in 2024) is reported on 17.06.2024. *)
Theorem weekend_shift_on_reported_date_only self today days out :
  Dict.wf (data self) -> valid_date today ->
  get_upcoming_birthdays today days self = Ok out ->
  (out = omap (Spec.entry today days) (Dict.values (data self)) /\
   forall r b, In r (Dict.values (data self)) -> birthday r = Some b ->
     let occurrence := Spec.candidate today (birthday_value b) in
     (weekday occurrence = 5 ->
      toordinal (Spec.reported occurrence) = toordinal occurrence + 2) /\
     (weekday occurrence = 6 ->
      toordinal (Spec.reported occurrence) = toordinal occurrence + 1) /\
     (weekday occurrence <> 5 -> weekday occurrence <> 6 ->
      Spec.reported occurrence = occurrence)) /\
  (weekday (Date 2024 6 10) = 0 /\ weekday (Date 2024 6 15) = 5 /\
   get_upcoming_birthdays (Date 2024 6 10) 7
     (book_of [contact "alice" "15.06.1990"]) =
   Ok [lit "Contact name: alice, birthday: 17.06.2024"]).
Proof.
  intros Hwf Ht H. split; [split|].
  - now apply upcoming_Ok_entries.
  - intros r b Hr Hb occurrence.
    destruct (upcoming_Ok self today days Hwf out H) as [_ Hall].
    destruct (Hall r Hr b Hb) as [[_ Hc] _].
    now apply reported_ordinal.
  - repeat split; vm_compute; reflexivity.
Qed.

Lemma weekend_shift_on_reported_date_only_witness :
  let self := book_of [contact "alice" "15.06.1990"; contact "bob" "16.06.2000";
                       contact "eve" "19.06.1985"] in
  get_upcoming_birthdays (Date 2024 6 10) 7 self =
    Ok [lit "Contact name: alice, birthday: 17.06.2024";
        lit "Contact name: bob, birthday: 17.06.2024"] /\
  [lit "Contact name: alice, birthday: 17.06.2024";
   lit "Contact name: bob, birthday: 17.06.2024"] =
  omap (Spec.entry (Date 2024 6 10) 7) (Dict.values (data self)).
Proof.
  intros self. split; [vm_compute; reflexivity|].
  apply (weekend_shift_on_reported_date_only self (Date 2024 6 10) 7).
  - wf_by_computation.
  - valid_by_computation.
  - vm_compute. reflexivity.
Defined.

Lemma included_iff today days r :
  Spec.included today days r = true <->
  exists b, birthday r = Some b /\
    toordinal today <= toordinal (Spec.candidate today (birthday_value b))
    <= toordinal today + days.
Proof.
  unfold Spec.included, Spec.in_window. destruct (birthday r) as [b|].
  - rewrite andb_true_iff, !Z.leb_le. split.
    + intros H. exists b. split; [reflexivity|lia].
    + intros (b' & [= <-] & H). lia.
  - split; [discriminate|]. intros (b & H & _). discriminate.
Qed.

(** C2, as amended.  For a window of 0 to 999999999 days that ends no
    later than 9999-12-31, and a book in which the month and day of every
    birthday make a date in today's year and in the year of the candidate
    occurrence, [get_upcoming_birthdays] returns, and its result has one
    line for each record that has a birthday whose candidate occurrence is
    from today to today plus the window, both ends included, in the order
    of the book, and no other line.  The candidate occurrence is the
    birthday's month and day in today's year, unless that is strictly
    before today, and then in the next year.  A record without a birthday
    is left out. *)
Theorem upcoming_includes_exactly_the_window self today days :
  Dict.wf (data self) -> valid_date today ->
  0 <= days <= 999999999 -> toordinal today + days <= MAXORDINAL ->
  (forall r b, In r (Dict.values (data self)) -> birthday r = Some b ->
     constructible today (birthday_value b)) ->
  (exists out,
     get_upcoming_birthdays today days self = Ok out /\
     Forall2 line_of
       (List.filter (Spec.included today days) (Dict.values (data self))) out) /\
  (forall r, Spec.included today days r = true <->
     exists b, birthday r = Some b /\
       toordinal today <= toordinal (Spec.candidate today (birthday_value b))
       <= toordinal today + days).
Proof.
  intros Hwf Ht Hd Hmax Hc. split; [|intros r; apply included_iff].
  eexists. split; [|apply entries_filter].
  apply upcoming_defined; [assumption..|lia|].
  intros r Hr b Hb. split; [now apply (Hc r)|].
  pose proof (toordinal_bounds today Ht). lia.
Qed.

Lemma upcoming_includes_exactly_the_window_witness :
  let carol := Record_init (lit "carol") in
  let self :=
    book_of [contact "alice" "15.06.1990"; contact "bob" "01.01.2000"; carol] in
  exists out,
    get_upcoming_birthdays (Date 2024 6 10) 7 self = Ok out /\
    Forall2 line_of
      (List.filter (Spec.included (Date 2024 6 10) 7) (Dict.values (data self)))
      out.
Proof.
  intros carol self.
  apply (upcoming_includes_exactly_the_window self (Date 2024 6 10) 7).
  - wf_by_computation.
  - valid_by_computation.
  - lia.
  - vm_compute. discriminate.
  - intros r b Hr Hb. vm_compute in Hr.
    destruct Hr as [<-|[<-|[<-|[]]]]; vm_compute in Hb; inversion Hb; subst;
      split; valid_by_computation.
Defined.

(** C2 as stated fails for a window longer than a [timedelta] can hold:
    the contact's birthday is today, inside the window, and the query
    raises OverflowError. *)
Lemma upcoming_window_counterexample :
  let self := book_of [contact "alice" "10.06.1990"] in
  let today := Date 2024 6 10 in
  let days := 1000000000 in
  0 <= days /\ valid_date today /\ Dict.wf (data self) /\
  (exists r, In r (Dict.values (data self)) /\
             Spec.included today days r = true) /\
  get_upcoming_birthdays today days self =
  Raise (OverflowError
           (lit "days=1000000000; must have magnitude <= 999999999")).
Proof.
  intros self today days. split; [lia|]. split; [valid_by_computation|].
  split; [wf_by_computation|]. split; [|vm_compute; reflexivity].
  exists (contact "alice" "10.06.1990"). split; [left|]; vm_compute; reflexivity.
Qed.

(** In a year that is no leap year, one birthday on February 29 is enough
    for the query to raise, whatever else the book holds. *)
Lemma leap_day_birthday_raises self today days r b :
  Dict.wf (data self) -> In r (Dict.values (data self)) ->
  birthday r = Some b ->
  month (birthday_value b) = 2 -> day (birthday_value b) = 29 ->
  is_leap (year today) = false ->
  exists e, get_upcoming_birthdays today days self = Raise e.
Proof.
  intros Hwf Hr Hb Hm Hd Hleap.
  destruct (get_upcoming_birthdays today days self) as [out|e] eqn:E; [|eauto].
  exfalso. destruct (upcoming_Ok self today days Hwf out E) as [_ Hall].
  destruct (Hall r Hr b Hb) as [[(_ & _ & Hday) _] _]. simpl in Hday.
  rewrite Hm, Hd in Hday. unfold days_in_month in Hday.
  rewrite Hleap in Hday. simpl in Hday. lia.
Qed.

(** C3.  The claim is that a birthday on February 29 is skipped in a year
    that is no leap year and the other records are still reported.  The
    code raises instead: with a book of alice, born 10.06.1990, and bob,
    born 29.02.2000, the query of 2023-06-10 for 7 days ends in the
    ValueError of [datetime(year=2023, month=2, day=29)], and alice, whose
    birthday is that day, is not reported. *)
Theorem leap_day_birthday_fails_the_query :
  let self := book_of [contact "alice" "10.06.1990"; contact "bob" "29.02.2000"] in
  birthday (contact "bob" "29.02.2000") = Some (mkBirthday (Date 2000 2 29)) /\
  is_leap 2023 = false /\
  get_upcoming_birthdays (Date 2023 6 10) 7 self =
  Raise (ValueError (lit "day is out of range for month")).
Proof. repeat split; vm_compute; reflexivity. Qed.

(** A new name goes to the end of the book; a name the book has keeps
    its place. *)
Lemma set_new {V} k (v : V) d :
  Dict.get k d = None -> Dict.set k v d = d ++ [(k, v)].
Proof.
  induction d as [|[k' v'] d IH]; simpl; [reflexivity|].
  destruct (str_eqb k' k); [discriminate|]. intros H. now rewrite IH.
Qed.

Lemma set_keys {V} k (v : V) d :
  Dict.get k d <> None -> Dict.keys (Dict.set k v d) = Dict.keys d.
Proof.
  induction d as [|[k' v'] d IH]; simpl; [congruence|].
  destruct (str_eqb k' k); [reflexivity|]. intros H. simpl. now rewrite IH.
Qed.

(** C7.  Whenever [get_upcoming_birthdays] returns, the lines of its result
    are those of the included records in the order in which the book
    iterates, which is the order of insertion: [add_record] puts a new name
    at the end and leaves the place of a name the book has.  The order is
    not that of the dates: bob, added first with the later birthday, comes
    before alice. *)
Theorem upcoming_in_iteration_order self today days out :
  Dict.wf (data self) -> valid_date today ->
  get_upcoming_birthdays today days self = Ok out ->
  Forall2 line_of
    (List.filter (Spec.included today days) (Dict.values (data self))) out /\
  (forall record book, find (name_value (name record)) book = None ->
     data (add_record record book) =
     data book ++ [(name_value (name record), record)]) /\
  (forall record book, find (name_value (name record)) book <> None ->
     Dict.keys (data (add_record record book)) = Dict.keys (data book)) /\
  get_upcoming_birthdays (Date 2024 6 10) 7
    (book_of [contact "bob" "14.06.1990"; contact "alice" "11.06.1990"]) =
  Ok [lit "Contact name: bob, birthday: 14.06.2024";
      lit "Contact name: alice, birthday: 11.06.2024"].
Proof.
  intros Hwf Ht H. repeat split.
  - rewrite (upcoming_Ok_entries self today days Hwf Ht out H).
    apply entries_filter.
  - intros record book Hf. unfold add_record, find in *. simpl.
    now apply set_new.
  - intros record book Hf. unfold add_record, find in *. simpl.
    now apply set_keys.
Qed.

Lemma upcoming_in_iteration_order_witness :
  let self := book_of [contact "bob" "14.06.1990"; contact "alice" "11.06.1990"] in
  Forall2 line_of
    (List.filter (Spec.included (Date 2024 6 10) 7) (Dict.values (data self)))
    [lit "Contact name: bob, birthday: 14.06.2024";
     lit "Contact name: alice, birthday: 11.06.2024"].
Proof.
  intros self.
  apply (upcoming_in_iteration_order self (Date 2024 6 10) 7).
  - wf_by_computation.
  - valid_by_computation.
  - vm_compute. reflexivity.
Defined.

Lemma entry_negative today days r : days < 0 -> Spec.entry today days r = None.
Proof.
  intros Hd. unfold Spec.entry, Spec.in_window.
  destruct (birthday r) as [b|]; [|reflexivity].
  destruct (Z.leb_spec (toordinal today)
              (toordinal (Spec.candidate today (birthday_value b))));
    [|reflexivity].
  destruct (Z.leb_spec (toordinal (Spec.candidate today (birthday_value b)))
              (toordinal today + days)); [lia|reflexivity].
Qed.

Lemma entries_negative today days (l : list Record_) :
  days < 0 -> omap (Spec.entry today days) l = [].
Proof.
  intros Hd. induction l as [|r l IH]; [reflexivity|].
  cbn [omap list_omap]. now rewrite entry_negative.
Qed.

(** C10, as amended.  For a negative window of at most 999999999 days,
    and a book in which every record with a birthday has the dates the
    loop constructs and leaves today plus the window on or after
    0001-01-01, [get_upcoming_birthdays] returns the empty list. *)
Theorem negative_window_is_empty self today days :
  Dict.wf (data self) -> valid_date today ->
  -999999999 <= days < 0 ->
  (forall r b, In r (Dict.values (data self)) -> birthday r = Some b ->
     constructible today (birthday_value b) /\ 1 <= toordinal today + days) ->
  get_upcoming_birthdays today days self = Ok [].
Proof.
  intros Hwf Ht Hd Hc.
  rewrite upcoming_defined; [|assumption..|lia|].
  - f_equal. apply entries_negative. lia.
  - intros r Hr b Hb. destruct (Hc r b Hr Hb) as [? ?]. split; [assumption|].
    pose proof (toordinal_bounds today Ht). lia.
Qed.

Lemma negative_window_is_empty_witness :
  get_upcoming_birthdays (Date 2024 6 10) (-3)
    (book_of [contact "alice" "15.06.1990"; contact "bob" "10.06.2000"]) = Ok [].
Proof.
  apply negative_window_is_empty.
  - wf_by_computation.
  - valid_by_computation.
  - lia.
  - intros r b Hr Hb. vm_compute in Hr.
    destruct Hr as [<-|[<-|[]]]; vm_compute in Hb; inversion Hb; subst;
      split; [valid_by_computation|vm_compute; discriminate
             |valid_by_computation|vm_compute; discriminate].
Defined.

(** C10 as stated fails for a negative window no [timedelta] can hold:
    the query raises OverflowError, also on the empty book. *)
Lemma negative_window_counterexample :
  -1000000000 < 0 /\
  get_upcoming_birthdays (Date 2024 6 10) (-1000000000) empty =
  Raise (OverflowError
           (lit "days=-1000000000; must have magnitude <= 999999999")).
Proof. split; [lia|vm_compute; reflexivity]. Qed.

(** ** Phones (C5) *)

Section TextFacts.

Lemma decimal_ranges_are_digit_ranges :
  forallb (fun r => existsb (range_within r) digit_ranges) decimal_ranges = true.
Proof. vm_compute. reflexivity. Qed.

Lemma isdecimal_isdigit c : isdecimal_char c = true -> isdigit_char c = true.
Proof.
  unfold isdecimal_char, isdigit_char. rewrite !existsb_exists.
  intros (r & Hr & Hc).
  pose proof decimal_ranges_are_digit_ranges as T.
  rewrite forallb_forall in T. specialize (T r Hr).
  apply existsb_exists in T as (r' & Hr' & Hw). exists r'. split; [exact Hr'|].
  unfold in_range, range_within in *.
  rewrite !andb_true_iff, !Z.leb_le in *. lia.
Qed.

Lemma isdigit_spec s :
  isdigit s = true <-> s <> [] /\ Forall (fun c => isdigit_char c = true) s.
Proof.
  unfold isdigit. destruct s as [|c s].
  - split; [discriminate|]. intros [H _]. congruence.
  - rewrite forallb_forall, List.Forall_forall. split.
    + intros H. split; [discriminate|exact H].
    + intros [_ H]. exact H.
Qed.

Lemma len_nonempty s : len s = 10 -> s <> [].
Proof. intros H ->. discriminate. Qed.

End TextFacts.

Section PhoneFacts.

Lemma Phone_init_spec value :
  Phone_init value =
  if decide (len value = 10 /\ isdigit value = true)
  then Ok (mkPhone value) else Raise ten_digits_error.
Proof.
  unfold Phone_init. destruct (Z.eqb_spec (len value) 10) as [E|E]; simpl.
  - destruct (isdigit value) eqn:D; simpl.
    + rewrite decide_True; [reflexivity|auto].
    + rewrite decide_False; [reflexivity|]. intros [_ ?]. discriminate.
  - rewrite decide_False; [reflexivity|]. tauto.
Qed.

End PhoneFacts.

(** C5, as amended.  [Phone(text)] raises ValueError exactly when the text
    does not have length 10 with every character a digit in the sense of
    [str.isdigit]; for every text of 10 decimal digits it succeeds, and
    the phone renders back as the same text. *)
Theorem makePhone_ten_digits text :
  ((exists msg, Phone_init text = Raise (ValueError msg)) <->
   ~ (len text = 10 /\ Forall (fun c => isdigit_char c = true) text)) /\
  (len text = 10 -> Spec.decimal_digits text ->
   exists p, Phone_init text = Ok p /\ to_str p = text).
Proof.
  rewrite Phone_init_spec. split.
  - destruct (decide _) as [[Hl Hd]|Hn].
    + apply isdigit_spec in Hd as [_ Hd]. split.
      * intros [msg H]. discriminate.
      * intros H. exfalso. apply H. auto.
    + split.
      * intros _ [Hl Hd]. apply Hn. split; [assumption|].
        apply isdigit_spec. split; [now apply len_nonempty|assumption].
      * intros _. eexists. reflexivity.
  - intros Hl Hd. rewrite decide_True.
    + eexists. split; reflexivity.
    + split; [assumption|]. apply isdigit_spec.
      split; [now apply len_nonempty|].
      unfold Spec.decimal_digits in Hd.
      eapply List.Forall_impl; [|exact Hd]. apply isdecimal_isdigit.
Qed.

Lemma makePhone_ten_digits_witness :
  exists p, Phone_init (lit "0501234567") = Ok p /\
            to_str p = lit "0501234567".
Proof.
  apply (makePhone_ten_digits (lit "0501234567")).
  - reflexivity.
  - unfold Spec.decimal_digits. repeat constructor.
Defined.

(** C5 as stated fails: ten times SUPERSCRIPT TWO (U+00B2), which
    [str.isdigit] accepts and which is no decimal digit, is a phone. *)
Lemma makePhone_counterexample :
  let text := List.repeat 178 10 in
  Phone_init text = Ok (mkPhone text) /\
  ~ (len text = 10 /\ Spec.decimal_digits text) /\
  ~ (len text = 10 /\ Forall Spec.ascii_digit text).
Proof.
  intros text. split; [reflexivity|]. split; intros [_ H].
  - apply List.Forall_inv in H. discriminate.
  - apply List.Forall_inv in H. unfold Spec.ascii_digit in H. lia.
Qed.

(** ** The methods of a record (C4, C9) *)

Section RecordFacts.

Lemma find_phone_None phone record :
  find_phone phone record = None <->
  Forall (fun p => phone_value p <> phone) (phones record).
Proof.
  unfold find_phone. induction (phones record) as [|p l IH]; simpl.
  - split; [constructor|reflexivity].
  - destruct (str_eqb (phone_value p) phone) eqn:E.
    + apply str_eqb_eq in E. split; [discriminate|].
      intros H. apply List.Forall_inv in H. contradiction.
    + apply str_eqb_neq in E. rewrite IH. split.
      * intros H. now constructor.
      * intros H. now apply List.Forall_inv_tail in H.
Qed.

Lemma remove_first_absent phone l :
  Forall (fun p => phone_value p <> phone) l -> remove_first phone l = None.
Proof.
  induction 1 as [|p l Hp Hl IH]; simpl; [reflexivity|].
  apply str_eqb_neq in Hp. now rewrite Hp, IH.
Qed.

Lemma remove_first_appended phone l :
  Forall (fun p => phone_value p <> phone) l ->
  remove_first phone (l ++ [mkPhone phone]) = Some l.
Proof.
  induction 1 as [|p l Hp Hl IH]; simpl.
  - now rewrite str_eqb_refl.
  - apply str_eqb_neq in Hp. now rewrite Hp, IH.
Qed.

Lemma remove_first_present phone l :
  List.find (fun p => str_eqb (phone_value p) phone) l <> None ->
  exists l', remove_first phone l = Some l'.
Proof.
  induction l as [|p l IH]; simpl; [congruence|].
  destruct (str_eqb (phone_value p) phone); [eauto|].
  intros H. destruct (IH H) as [l' ->]. simpl. eauto.
Qed.

(** What [edit_phone] does, case by case. *)
Lemma edit_phone_cases old_phone new_phone record :
  match remove_first old_phone (phones record) with
  | None =>
      edit_phone old_phone new_phone record =
      (Raise (not_found old_phone), record)
  | Some l' =>
      edit_phone old_phone new_phone record =
      match Phone_init new_phone with
      | Ok p => (Ok tt, mkRecord (name record) (l' ++ [p]) (birthday record))
      | Raise e => (Raise e, mkRecord (name record) l' (birthday record))
      end
  end.
Proof.
  unfold edit_phone. destruct (find_phone old_phone record) as [p|] eqn:F.
  - destruct (remove_first_present old_phone (phones record)) as [l' E].
    { unfold find_phone in F. congruence. }
    rewrite E. unfold remove_phone, add_phone, mbind, method_mbind, method_bind,
      get_phones, set_phones, lift. rewrite E. simpl.
    destruct (Phone_init new_phone); reflexivity.
  - apply find_phone_None in F. rewrite (remove_first_absent _ _ F).
    reflexivity.
Qed.




End RecordFacts.

(** C4.  The claim is that [edit_phone] leaves the phones as they are when
    it fails.  The code removes the old phone before it validates the new
    one: on a record holding 1111111111, [edit_phone] to 12345 raises the
    ValueError of [Phone] and leaves the record without any phone.  The
    other cases are as claimed: an old phone that is not stored raises
    and changes nothing, and the edit to 2222222222 leaves that phone
    alone. *)
Theorem edit_phone_invalid_new_phone_drops_old :
  let record := snd (add_phone (lit "1111111111") (Record_init (lit "alice"))) in
  phones record = [mkPhone (lit "1111111111")] /\
  edit_phone (lit "1111111111") (lit "12345") record =
  (Raise (ValueError (lit "The number must be 10 digits long")),
   mkRecord (name record) [] (birthday record)) /\
  edit_phone (lit "3333333333") (lit "2222222222") record =
  (Raise (not_found (lit "3333333333")), record) /\
  edit_phone (lit "1111111111") (lit "2222222222") record =
  (Ok tt, mkRecord (name record) [mkPhone (lit "2222222222")] (birthday record)).
Proof. repeat split; vm_compute; reflexivity. Qed.




(** ** Birthdays: the matcher, the digits and the grammar (C6) *)

Section MatcherFacts.

Lemma match_alt_sound a : forall s m r,
  match_alt a s = Some (m, r) ->
  s = m ++ r /\ Forall2 (fun (p : cls) c => p c = true) a m.
Proof.
  induction a as [|p a IH]; intros s m r; simpl.
  - intros [= <- <-]. split; [reflexivity|constructor].
  - destruct s as [|c s]; [discriminate|].
    destruct (p c) eqn:Ep; [|discriminate].
    destruct (match_alt a s) as [[m' r']|] eqn:E; [|discriminate].
    intros [= <- <-]. apply IH in E as [-> F].
    split; [reflexivity|now constructor].
Qed.

Lemma match_alt_complete a m r :
  Forall2 (fun (p : cls) c => p c = true) a m ->
  match_alt a (m ++ r) = Some (m, r).
Proof.
  induction 1 as [|p c a m Hp F IH]; simpl; [reflexivity|].
  now rewrite Hp, IH.
Qed.

Lemma match_alts_sound {A} alts s (k : str -> str -> option A) x :
  match_alts alts s k = Some x ->
  exists m r, matches alts m /\ s = m ++ r /\ k m r = Some x.
Proof.
  induction alts as [|a alts IH]; simpl; [discriminate|].
  assert (Hrest : match_alts alts s k = Some x ->
                  exists m r, matches (a :: alts) m /\ s = m ++ r /\
                              k m r = Some x).
  { intros H. destruct (IH H) as (m & r & (a' & Ha' & F) & E & K).
    exists m, r. split; [exists a'; split; [now right|exact F]|auto]. }
  destruct (match_alt a s) as [[m r]|] eqn:E; [|exact Hrest].
  destruct (k m r) as [y|] eqn:K; [|exact Hrest].
  intros [= <-]. apply match_alt_sound in E as [-> F].
  exists m, r. split; [exists a; split; [now left|exact F]|auto].
Qed.

Lemma match_alts_complete {A} alts m r (k : str -> str -> option A) x :
  matches alts m -> k m r = Some x ->
  exists x', match_alts alts (m ++ r) k = Some x'.
Proof.
  intros (a & Ha & F) K. induction alts as [|a' alts IH]; [destruct Ha|].
  simpl. destruct Ha as [->|Ha].
  - assert (match_alt a (m ++ r) = Some (m, r)) as -> by (now apply match_alt_complete).
    rewrite K. eauto.
  - destruct (match_alt a' (m ++ r)) as [[m' r']|]; [|auto].
    destruct (k m' r'); eauto.
Qed.

End MatcherFacts.

Section DigitFacts.

Lemma find_existsb {A} (f : A -> bool) l :
  existsb f l = true <-> exists x, List.find f l = Some x.
Proof.
  induction l as [|a l IH]; simpl.
  - split; [discriminate|intros [x H]; discriminate].
  - destruct (f a); simpl; [|exact IH]. split; eauto.
Qed.

Lemma isdecimal_value c :
  isdecimal_char c = true <-> exists v, decimal_value c = Some v.
Proof.
  unfold isdecimal_char, decimal_value. rewrite find_existsb. split.
  - intros [r ->]. eauto.
  - intros [v H]. destruct (List.find _ _); [eauto|discriminate].
Qed.

Lemma decimal_value_range c v : decimal_value c = Some v -> 0 <= v <= 9.
Proof.
  unfold decimal_value. destruct (List.find _ _); [|discriminate].
  intros [= <-]. pose proof (Z.mod_pos_bound (c - fst p) 10). lia.
Qed.

Lemma ascii_decimal_value c : 48 <= c <= 57 -> decimal_value c = Some (c - 48).
Proof.
  intros H. unfold decimal_value, decimal_ranges. cbn [List.find].
  assert (in_range c (48, 57) = true) as ->.
  { unfold in_range. simpl. apply andb_true_iff. rewrite !Z.leb_le. lia. }
  cbn [fst]. f_equal. apply Z.mod_small. lia.
Qed.

Lemma decimal_ranges_apart_from_space :
  forallb (fun r => forallb (ranges_apart r) space_ranges) decimal_ranges = true.
Proof. vm_compute. reflexivity. Qed.

Lemma decimal_not_space c : isdecimal_char c = true -> isspace_char c = false.
Proof.
  unfold isdecimal_char. rewrite existsb_exists. intros (r & Hr & Hc).
  pose proof decimal_ranges_apart_from_space as T.
  rewrite forallb_forall in T. specialize (T r Hr).
  rewrite forallb_forall in T.
  apply not_true_is_false. unfold isspace_char. rewrite existsb_exists.
  intros (r' & Hr' & Hc'). specialize (T r' Hr').
  unfold ranges_apart, in_range in *.
  rewrite orb_true_iff, !Z.ltb_lt in T.
  rewrite andb_true_iff, !Z.leb_le in Hc, Hc'. lia.
Qed.

Lemma value_not_space c v : decimal_value c = Some v -> isspace_char c = false.
Proof. intros H. apply decimal_not_space, isdecimal_value. eauto. Qed.

Local Arguments decimal_value : simpl never.
Local Arguments isspace_char : simpl never.

Lemma int_of_one c v :
  decimal_value c = Some v -> int_of_group [c] = Ok v.
Proof.
  intros H. pose proof (value_not_space _ _ H) as S.
  unfold int_of_group, int_of_numeral, strip.
  simpl. rewrite S. simpl. rewrite S. simpl. now rewrite H.
Qed.

Lemma int_of_space_one c v :
  decimal_value c = Some v -> int_of_group [32; c] = Ok v.
Proof.
  intros H. pose proof (value_not_space _ _ H) as S.
  unfold int_of_group, int_of_numeral, strip.
  simpl. change (isspace_char 32) with true. cbv iota.
  rewrite S. simpl. rewrite S. simpl. now rewrite H.
Qed.

Lemma int_of_two c1 c2 v1 v2 :
  decimal_value c1 = Some v1 -> decimal_value c2 = Some v2 ->
  int_of_group [c1; c2] = Ok (10 * v1 + v2).
Proof.
  intros H1 H2. pose proof (value_not_space _ _ H1) as S1.
  pose proof (value_not_space _ _ H2) as S2.
  unfold int_of_group, int_of_numeral, strip.
  simpl. rewrite S1. simpl. rewrite S2. simpl. rewrite H1, H2.
  first [reflexivity | f_equal; lia].
Qed.

Lemma int_of_four c1 c2 c3 c4 v1 v2 v3 v4 :
  decimal_value c1 = Some v1 -> decimal_value c2 = Some v2 ->
  decimal_value c3 = Some v3 -> decimal_value c4 = Some v4 ->
  int_of_group [c1; c2; c3; c4] =
  Ok (1000 * v1 + 100 * v2 + 10 * v3 + v4).
Proof.
  intros H1 H2 H3 H4. pose proof (value_not_space _ _ H1) as S1.
  pose proof (value_not_space _ _ H4) as S4.
  unfold int_of_group, int_of_numeral, strip.
  simpl. rewrite S1. simpl. rewrite S4. simpl. rewrite H1, H2, H3, H4.
  first [reflexivity | f_equal; lia].
Qed.

End DigitFacts.

Section GrammarFacts.

Lemma one_true a c : one a c = true <-> c = a.
Proof. unfold one. apply Z.eqb_eq. Qed.

Lemma range_true lo hi c : range lo hi c = true <-> lo <= c <= hi.
Proof.
  unfold range, in_range. simpl. rewrite andb_true_iff, !Z.leb_le. tauto.
Qed.

Lemma backslash_d_true c :
  backslash_d c = true <-> exists v, decimal_value c = Some v.
Proof. apply isdecimal_value. Qed.

Lemma dot_not_decimal v : decimal_value 46 = Some v -> False.
Proof. vm_compute. discriminate. Qed.

Ltac invert_matches H :=
  let a := fresh "a" in
  let Ha := fresh "Ha" in
  let F := fresh "F" in
  destruct H as (a & Ha & F); simpl in Ha;
  repeat (destruct Ha as [Ha|Ha]; [subst a|]); [..|destruct Ha];
  repeat match goal with
         | F : Forall2 _ (_ :: _) _ |- _ => inversion F; subst; clear F
         | F : Forall2 _ [] _ |- _ => inversion F; subst; clear F
         end;
  repeat match goal with
         | H : one _ _ = true |- _ => apply one_true in H; subst
         | H : range _ _ _ = true |- _ => apply range_true in H
         | H : backslash_d _ = true |- _ =>
             apply backslash_d_true in H; destruct H as [? H]
         end.

Ltac prove_cls :=
  repeat constructor;
  first [ now apply one_true
        | apply range_true; lia
        | apply backslash_d_true; eauto ].

Lemma day_matches m : matches directive_d m <-> exists v, day_text m v.
Proof.
  split.
  - intros H. invert_matches H; eexists;
      [ apply day_30_31 | eapply day_10_29 | apply day_01_09
      | apply day_1_9 | apply day_space_1_9 ]; eassumption.
  - intros [v H]. unfold matches, directive_d. destruct H.
    + eexists. split; [left; reflexivity|prove_cls].
    + eexists. split; [right; left; reflexivity|prove_cls].
    + eexists. split; [do 2 right; left; reflexivity|prove_cls].
    + eexists. split; [do 3 right; left; reflexivity|prove_cls].
    + eexists. split; [do 4 right; left; reflexivity|prove_cls].
Qed.

Lemma month_matches m : matches directive_m m <-> exists v, month_text m v.
Proof.
  split.
  - intros H. invert_matches H; eexists;
      [ apply month_10_12 | apply month_01_09 | apply month_1_9 ];
      eassumption.
  - intros [v H]. unfold matches, directive_m. destruct H.
    + eexists. split; [left; reflexivity|prove_cls].
    + eexists. split; [right; left; reflexivity|prove_cls].
    + eexists. split; [do 2 right; left; reflexivity|prove_cls].
Qed.

Lemma year_matches m : matches directive_Y m <-> exists v, year_text m v.
Proof.
  split.
  - intros H. invert_matches H. eexists. eapply year_4; eassumption.
  - intros [v H]. unfold matches, directive_Y. destruct H.
    eexists. split; [left; reflexivity|prove_cls].
Qed.

Lemma dot_matches m : matches dot m <-> m = [46].
Proof.
  split.
  - intros H. invert_matches H. reflexivity.
  - intros ->. eexists. split; [left; reflexivity|prove_cls].
Qed.

Lemma day_int m v : day_text m v -> int_of_group m = Ok v.
Proof.
  destruct 1.
  - replace (30 + (c - 48)) with (10 * (51 - 48) + (c - 48)) by lia.
    apply int_of_two; apply ascii_decimal_value; lia.
  - apply int_of_two; [apply ascii_decimal_value; lia|assumption].
  - replace (c - 48) with (10 * (48 - 48) + (c - 48)) by lia.
    apply int_of_two; apply ascii_decimal_value; lia.
  - apply int_of_one, ascii_decimal_value. lia.
  - apply int_of_space_one, ascii_decimal_value. lia.
Qed.

Lemma month_int m v : month_text m v -> int_of_group m = Ok v.
Proof.
  destruct 1.
  - replace (10 + (c - 48)) with (10 * (49 - 48) + (c - 48)) by lia.
    apply int_of_two; apply ascii_decimal_value; lia.
  - replace (c - 48) with (10 * (48 - 48) + (c - 48)) by lia.
    apply int_of_two; apply ascii_decimal_value; lia.
  - apply int_of_one, ascii_decimal_value. lia.
Qed.

Lemma year_int m v : year_text m v -> int_of_group m = Ok v.
Proof. destruct 1. now apply int_of_four. Qed.

(** The full stop after a day or a month tells where it ends. *)
Lemma day_unique d d' v v' t t' :
  day_text d v -> day_text d' v' -> d ++ 46 :: t = d' ++ 46 :: t' ->
  d = d' /\ t = t'.
Proof.
  intros H H'. destruct H, H'; simpl; intros E; inversion E; subst;
    try (split; reflexivity); try lia;
    try (exfalso; eapply dot_not_decimal; eassumption).
Qed.

Lemma month_unique m m' v v' t t' :
  month_text m v -> month_text m' v' -> m ++ 46 :: t = m' ++ 46 :: t' ->
  m = m' /\ t = t'.
Proof.
  intros H H'. destruct H, H'; simpl; intros E; inversion E; subst;
    try (split; reflexivity); try lia.
Qed.

Lemma year_unique y y' v v' t t' :
  year_text y v -> year_text y' v' -> y ++ t = y' ++ t' -> y = y' /\ t = t'.
Proof.
  intros H H'. destruct H, H'; simpl; intros E; inversion E; subst.
  split; reflexivity.
Qed.

End GrammarFacts.

Section StrptimeFacts.

Lemma regex_sound s d m y rest :
  regex_match s = Some (d, m, y, rest) ->
  matches directive_d d /\ matches directive_m m /\ matches directive_Y y /\
  s = d ++ [46] ++ m ++ [46] ++ y ++ rest.
Proof.
  unfold regex_match. intros H.
  apply match_alts_sound in H as (d' & r1 & Hd & -> & H).
  apply match_alts_sound in H as (p1 & r2 & Hp1 & -> & H).
  apply match_alts_sound in H as (m' & r3 & Hm & -> & H).
  apply match_alts_sound in H as (p2 & r4 & Hp2 & -> & H).
  apply match_alts_sound in H as (y' & r5 & Hy & -> & H).
  injection H as <- <- <- <-.
  apply dot_matches in Hp1 as ->. apply dot_matches in Hp2 as ->.
  auto.
Qed.

Lemma regex_complete d m y rest :
  matches directive_d d -> matches directive_m m -> matches directive_Y y ->
  exists x, regex_match (d ++ [46] ++ m ++ [46] ++ y ++ rest) = Some x.
Proof.
  intros Hd Hm Hy. unfold regex_match.
  assert (Hdot : matches dot [46]) by now apply dot_matches.
  destruct (match_alts_complete directive_Y y rest
              (fun y s => Some (d, m, y, s)) _ Hy eq_refl) as [x5 H5].
  destruct (match_alts_complete dot [46] (y ++ rest)
              (fun _ s => match_alts directive_Y s
                            (fun y s => Some (d, m, y, s))) _ Hdot H5)
    as [x4 H4].
  destruct (match_alts_complete directive_m m ([46] ++ y ++ rest)
              (fun m s => match_alts dot s (fun _ s =>
                 match_alts directive_Y s (fun y s => Some (d, m, y, s))))
              _ Hm H4) as [x3 H3].
  destruct (match_alts_complete dot [46] (m ++ [46] ++ y ++ rest)
              (fun _ s => match_alts directive_m s (fun m s =>
                 match_alts dot s (fun _ s =>
                 match_alts directive_Y s (fun y s => Some (d, m, y, s)))))
              _ Hdot H3) as [x2 H2].
  exact (match_alts_complete directive_d d ([46] ++ m ++ [46] ++ y ++ rest)
           (fun d s => match_alts dot s (fun _ s =>
              match_alts directive_m s (fun m s =>
              match_alts dot s (fun _ s =>
              match_alts directive_Y s (fun y s => Some (d, m, y, s))))))
           _ Hd H2).
Qed.

(** A text of the grammar is matched as the grammar reads it, whole. *)
Lemma regex_match_text dd mm yy vd vm vy :
  day_text dd vd -> month_text mm vm -> year_text yy vy ->
  regex_match (dd ++ [46] ++ mm ++ [46] ++ yy) = Some (dd, mm, yy, []).
Proof.
  intros Hd Hm Hy.
  destruct (regex_complete dd mm yy [])
    as [[[[d' m'] y'] rest'] E];
    [apply day_matches|apply month_matches|apply year_matches|]; eauto.
  rewrite app_nil_r in E. rewrite E.
  apply regex_sound in E as (Hd' & Hm' & Hy' & E).
  apply day_matches in Hd' as [vd' Hd']. apply month_matches in Hm' as [vm' Hm'].
  apply year_matches in Hy' as [vy' Hy'].
  simpl in E.
  apply (day_unique _ _ _ _ _ _ Hd Hd') in E as [<- E].
  apply (month_unique _ _ _ _ _ _ Hm Hm') in E as [<- E].
  rewrite <- (app_nil_r yy) in E at 1.
  apply (year_unique _ _ _ _ _ _ Hy Hy') in E as [<- <-]. reflexivity.
Qed.

Lemma strptime_Ok text d :
  strptime_dmY text = Ok d <-> birthday_text text d /\ valid_date d.
Proof.
  unfold strptime_dmY. split.
  - destruct (regex_match text) as [[[[dd mm] yy] rest]|] eqn:E; [|discriminate].
    destruct rest; [|discriminate].
    apply regex_sound in E as (Hd & Hm & Hy & ->).
    apply day_matches in Hd as [vd Hd]. apply month_matches in Hm as [vm Hm].
    apply year_matches in Hy as [vy Hy].
    rewrite (year_int _ _ Hy), (month_int _ _ Hm), (day_int _ _ Hd).
    cbn [mbind res_mbind res_bind]. intros H.
    apply new_date_Ok in H as [-> Hv]. split; [|exact Hv].
    exists dd, mm, yy. rewrite app_nil_r. auto.
  - intros [(dd & mm & yy & -> & Hd & Hm & Hy) Hv].
    pose proof (regex_match_text _ _ _ _ _ _ Hd Hm Hy) as R.
    unfold str, char in *. rewrite R.
    rewrite (year_int _ _ Hy), (month_int _ _ Hm), (day_int _ _ Hd).
    cbn [mbind res_mbind res_bind]. destruct d as [y m dy]. simpl in *.
    now apply new_date_valid.
Qed.

Lemma strptime_raises text e :
  strptime_dmY text = Raise e -> exists msg, e = ValueError msg.
Proof.
  unfold strptime_dmY.
  destruct (regex_match text) as [[[[dd mm] yy] rest]|];
    [|intros [= <-]; eauto].
  destruct rest; [|intros [= <-]; eauto].
  unfold int_of_group.
  destruct (int_of_numeral yy); cbn [mbind res_mbind res_bind];
    [|intros [= <-]; eauto].
  destruct (int_of_numeral mm); cbn [mbind res_mbind res_bind];
    [|intros [= <-]; eauto].
  destruct (int_of_numeral dd); cbn [mbind res_mbind res_bind];
    [|intros [= <-]; eauto].
  intros H. destruct (decide (valid_date (Date z z0 z1))) as [Hv|Hv].
  - rewrite (new_date_valid _ _ _ Hv) in H. discriminate.
  - destruct (new_date_invalid _ _ _ Hv) as [msg Hm]. rewrite Hm in H.
    injection H as <-. eauto.
Qed.

Lemma Birthday_init_Ok text d :
  Birthday_init text = Ok (mkBirthday d) <-> strptime_dmY text = Ok d.
Proof.
  unfold Birthday_init. destruct (strptime_dmY text) as [d'|e] eqn:E.
  - split; intros [= ->]; reflexivity.
  - destruct (strptime_raises _ _ E) as [msg ->]. split; discriminate.
Qed.

Lemma Birthday_init_Raise text :
  (forall d, strptime_dmY text <> Ok d) ->
  Birthday_init text = Raise invalid_date_format.
Proof.
  intros H. unfold Birthday_init. destruct (strptime_dmY text) as [d'|e] eqn:E.
  - now destruct (H d').
  - destruct (strptime_raises _ _ E) as [msg ->]. reflexivity.
Qed.

(** A text of the strict pattern that denotes a date is of the grammar. *)
Lemma strict_birthday_text_valid text d :
  strict_birthday_text text d -> valid_date d -> birthday_text text d.
Proof.
  intros (d1 & d2 & m1 & m2 & y1 & y2 & y3 & y4 & -> & Hascii & ->) Hv.
  unfold Spec.ascii_digit in Hascii.
  repeat match goal with
         | H : Forall _ (_ :: _) |- _ =>
             apply List.Forall_cons_iff in H; destruct H as [? H]
         end.
  destruct Hv as (Hy & Hm & Hd). simpl in Hy, Hm, Hd.
  assert (Hd' : 10 * (d1 - 48) + (d2 - 48) <= 31).
  { unfold days_in_month, DAYS_IN_MONTH in Hd.
    repeat match type of Hd with
           | context [if ?c then _ else _] => destruct c
           | context [match ?m with _ => _ end] => destruct m
           end; lia. }
  exists [d1; d2], [m1; m2], [y1; y2; y3; y4]. simpl. split; [reflexivity|].
  split; [|split].
  - assert (d1 = 48 \/ 49 <= d1 <= 50 \/ d1 = 51) as [E|[E|E]] by lia;
      [subst d1| |subst d1].
    + replace (10 * (48 - 48) + (d2 - 48)) with (d2 - 48) by lia.
      apply day_01_09. lia.
    + apply day_10_29; [lia|]. apply ascii_decimal_value. lia.
    + replace (10 * (51 - 48) + (d2 - 48)) with (30 + (d2 - 48)) by lia.
      apply day_30_31. lia.
  - assert (m1 = 48 \/ m1 = 49) as [E|E] by lia; subst m1.
    + replace (10 * (48 - 48) + (m2 - 48)) with (m2 - 48) by lia.
      apply month_01_09. lia.
    + replace (10 * (49 - 48) + (m2 - 48)) with (10 + (m2 - 48)) by lia.
      apply month_10_12. lia.
  - apply year_4; apply ascii_decimal_value; lia.
Qed.

End StrptimeFacts.

Lemma strict_reading text d d' :
  strict_birthday_text text d -> birthday_text text d' -> d' = d.
Proof.
  intros (d1 & d2 & m1 & m2 & y1 & y2 & y3 & y4 & -> & Hascii & ->)
         (dd & mm & yy & E & Hd & Hm & Hy).
  unfold Spec.ascii_digit in Hascii.
  repeat match goal with
         | H : Forall _ (_ :: _) |- _ =>
             apply List.Forall_cons_iff in H; destruct H as [? H]
         end.
  destruct d' as [y m dy]. simpl in Hd, Hm, Hy.
  inversion Hd; subst; inversion Hm; subst; inversion Hy; subst;
    simpl in E; inversion E; subst; try lia;
    repeat match goal with
           | H : decimal_value ?c = Some _ |- _ =>
               rewrite ascii_decimal_value in H by lia;
               injection H as H; subst
           end;
    f_equal; lia.
Qed.

(** C6, as amended.  [Birthday(text)] succeeds with the date [d] exactly
    when the text is a day, a full stop, a month, a full stop and a year
    that read as [d], and [d] is a date of the calendar, where a day is
    01 to 31 in two digits, 1 to 9 in one digit, or a space and 1 to 9, a
    month is 01 to 12 in two digits or 1 to 9 in one, and a year is four
    digits; on any other text it raises the ValueError "Invalid date
    format. Use DD.MM.YYYY".  A text of two digits, two digits and four
    digits succeeds exactly when it denotes a date of the calendar.
    "29.02.2001" fails and "29.02.2000" succeeds. *)
Theorem makeBirthday_day_month_year text :
  (forall d, Birthday_init text = Ok (mkBirthday d) <->
             birthday_text text d /\ valid_date d) /\
  ((forall d, ~ (birthday_text text d /\ valid_date d)) ->
   Birthday_init text = Raise invalid_date_format) /\
  (forall d, strict_birthday_text text d ->
     ((exists b, Birthday_init text = Ok b) <-> valid_date d)) /\
  Birthday_init (lit "29.02.2001") = Raise invalid_date_format /\
  Birthday_init (lit "29.02.2000") = Ok (mkBirthday (Date 2000 2 29)).
Proof.
  assert (H1 : forall d, Birthday_init text = Ok (mkBirthday d) <->
                         birthday_text text d /\ valid_date d).
  { intros d. rewrite Birthday_init_Ok. apply strptime_Ok. }
  split; [exact H1|]. split; [|split; [|split; vm_compute; reflexivity]].
  - intros H. apply Birthday_init_Raise. intros d E.
    apply strptime_Ok in E. now apply (H d).
  - intros d Hs. split.
    + intros [[d'] E]. apply H1 in E as [Ht Hv].
      now rewrite <- (strict_reading _ _ _ Hs Ht).
    + intros Hv. exists (mkBirthday d). apply H1. split; [|exact Hv].
      now apply strict_birthday_text_valid.
Qed.

Lemma makeBirthday_day_month_year_witness :
  exists b, Birthday_init (lit "24.08.1991") = Ok b.
Proof.
  apply (proj1 (proj2 (proj2 (makeBirthday_day_month_year (lit "24.08.1991"))))
           (Date 1991 8 24)).
  - exists 50, 52, 48, 56, 49, 57, 57, 49. split; [reflexivity|].
    split; [|reflexivity]. unfold Spec.ascii_digit. repeat constructor; lia.
  - valid_by_computation.
Defined.

(** C6 as stated fails: "1.2.2000", with a day and a month of one digit,
    is read as 2000-02-01. *)
Lemma makeBirthday_counterexample :
  Birthday_init (lit "1.2.2000") = Ok (mkBirthday (Date 2000 2 1)) /\
  ~ exists d, strict_birthday_text (lit "1.2.2000") d.
Proof.
  split; [vm_compute; reflexivity|].
  intros (d & d1 & d2 & m1 & m2 & y1 & y2 & y3 & y4 & E & _). discriminate.
Qed.

(** ** The invariant of the book (C8) *)

Section SessionFacts.
Import Session.

Lemma set_In {V} k (v : V) d k0 v0 :
  In (k0, v0) (Dict.set k v d) -> In (k0, v0) d \/ (k0 = k /\ v0 = v).
Proof.
  induction d as [|[k' v'] d IH]; simpl.
  - intros [[= <- <-]|[]]. auto.
  - destruct (str_eqb k' k) eqn:E.
    + apply str_eqb_eq in E. subst. simpl.
      intros [[= <- <-]|H]; auto.
    + simpl. intros [H|H]; [auto|]. destruct (IH H); auto.
Qed.

Lemma del_In {V} k (d d' : Dict.dict V) k0 v0 :
  Dict.del k d = Some d' -> In (k0, v0) d' -> In (k0, v0) d.
Proof.
  revert d'. induction d as [|[k' v'] d IH]; simpl; [discriminate|].
  intros d'. destruct (str_eqb k' k).
  - intros [= <-]. auto.
  - destruct (Dict.del k d) as [d''|]; [|discriminate].
    intros [= <-] [H|H]; [auto|]. right. now apply (IH d'').
Qed.

(** No method changes the name of its record. *)
Lemma run_name m record : name (snd (run m record)) = name record.
Proof.
  destruct m as [p|p|o n|b|]; simpl.
  - unfold add_phone, mbind, method_mbind, method_bind, lift.
    destruct (Phone_init p); reflexivity.
  - unfold remove_phone, mbind, method_mbind, method_bind, get_phones.
    destruct (remove_first p (phones record)); reflexivity.
  - pose proof (edit_phone_cases o n record) as H.
    destruct (remove_first o (phones record)); rewrite H;
      [destruct (Phone_init n)|]; reflexivity.
  - unfold add_birthday, mbind, method_mbind, method_bind, lift.
    destruct (Birthday_init b); reflexivity.
  - reflexivity.
Qed.

Lemma step_keys_are_names s s' :
  step s s' -> keys_are_names s -> keys_are_names s'.
Proof.
  intros Hstep Hinv. destruct Hstep as [n s|r record s Hr|n d s Hd|r record m s Hr];
    intros k r0 Hin; simpl in *.
  - destruct (Hinv k r0 Hin) as (rec & Hl & Hn). exists rec.
    split; [|exact Hn]. now apply lookup_app_l_Some.
  - apply set_In in Hin as [Hin|[-> ->]]; [now apply Hinv|eauto].
  - apply (del_In _ _ _ _ _ Hd) in Hin. now apply Hinv.
  - destruct (Hinv k r0 Hin) as (rec & Hl & Hn).
    destruct (decide (r0 = r)) as [->|Hne].
    + exists (snd (run m record)). split.
      * apply list_lookup_insert_eq. now apply lookup_lt_Some in Hl.
      * rewrite run_name. congruence.
    + exists rec. split; [|exact Hn]. now rewrite list_lookup_insert_ne.
Qed.

Lemma reachable_keys_are_names s : reachable s -> keys_are_names s.
Proof.
  unfold reachable. revert s. apply rtc_ind_r.
  - intros k r [].
  - intros y z _ Hstep Hinv. now apply (step_keys_are_names y).
Qed.

Lemma resolve_names s :
  keys_are_names s ->
  Forall (fun kv => name_value (name (snd kv)) = fst kv) (data (resolve s)).
Proof.
  intros Hinv. apply List.Forall_forall. intros [k rec] Hin.
  unfold resolve in Hin. simpl in Hin.
  apply list_elem_of_In, list_elem_of_omap in Hin as ([k' r] & Hin & E).
  apply list_elem_of_In in Hin. simpl in E.
  destruct (Hinv k' r Hin) as (rec' & Hl & Hn). rewrite Hl in E.
  simpl in E. injection E as <- <-. exact Hn.
Qed.

End SessionFacts.

(** C8.  In every state a session can reach, every key of the book is the
    name of the record it refers to, also in the book with the references
    followed; every operation keeps it so: making a record, [add_record],
    [delete] and every call that changes a record, none of which changes
    the record's name. *)
Theorem keys_are_names_invariant s :
  Session.reachable s ->
  Session.keys_are_names s /\
  Forall (fun kv => name_value (name (snd kv)) = fst kv)
    (data (Session.resolve s)) /\
  (forall s', Session.step s s' -> Session.keys_are_names s') /\
  (forall m record, name (snd (Session.run m record)) = name record).
Proof.
  intros H. pose proof (reachable_keys_are_names s H) as Hinv.
  split; [exact Hinv|]. split; [now apply resolve_names|]. split.
  - intros s' Hs. now apply (step_keys_are_names s).
  - apply run_name.
Qed.

Lemma keys_are_names_invariant_witness :
  let alice := Record_init (lit "alice") in
  let bob := Record_init (lit "bob") in
  let s := Session.mkState
             [snd (add_birthday (lit "24.08.1991")
                     (snd (add_phone (lit "0501234567") alice))); bob]
             [(lit "alice", 0%nat)] in
  Session.keys_are_names s.
Proof.
  intros alice bob s. refine (proj1 (keys_are_names_invariant s _)).
  unfold Session.reachable.
  eapply rtc_l; [apply (Session.step_Record (lit "alice"))|].
  eapply rtc_l; [apply (Session.step_add_record 0%nat (Record_init (lit "alice")));
                 reflexivity|].
  eapply rtc_l; [apply (Session.step_Record (lit "bob"))|].
  eapply rtc_l; [apply (Session.step_mutation 0%nat (Record_init (lit "alice"))
                          (Session.Add_phone (lit "0501234567")));
                 reflexivity|].
  eapply rtc_l; [apply (Session.step_mutation 0%nat
                          (snd (add_phone (lit "0501234567")
                                  (Record_init (lit "alice"))))
                          (Session.Add_birthday (lit "24.08.1991")));
                 reflexivity|].
  apply rtc_refl.
Defined.

(** * More of the records, the book and the query *)

(** ** More on the methods of a record *)

Lemma remove_first_Some phone l l' :
  remove_first phone l = Some l' <->
  exists l1 p l2,
    l = l1 ++ p :: l2 /\ phone_value p = phone /\
    Forall (fun q => phone_value q <> phone) l1 /\ l' = l1 ++ l2.
Proof.
  revert l'. induction l as [|q l IH]; intros l'; simpl.
  - split; [discriminate|]. intros (l1 & p & l2 & E & _). now destruct l1.
  - destruct (str_eqb (phone_value q) phone) eqn:Eq.
    + apply str_eqb_eq in Eq. split.
      * intros [= <-]. exists [], q, l. repeat split; auto.
      * intros (l1 & p & l2 & E & Hp & Hl1 & ->). destruct l1 as [|q' l1].
        -- simpl in E. injection E as -> ->. reflexivity.
        -- simpl in E. injection E as -> ->.
           apply List.Forall_inv in Hl1. contradiction.
    + apply str_eqb_neq in Eq. split.
      * destruct (remove_first phone l) as [l0|]; [|discriminate].
        simpl. intros [= <-].
        destruct (proj1 (IH l0) eq_refl) as (l1 & p & l2 & -> & Hp & Hl1 & ->).
        exists (q :: l1), p, l2. repeat split; auto.
      * intros (l1 & p & l2 & E & Hp & Hl1 & ->). destruct l1 as [|q' l1].
        -- simpl in E. injection E as -> ->. contradiction.
        -- simpl in E. injection E as -> ->.
           apply List.Forall_inv_tail in Hl1.
           rewrite (proj2 (IH (l1 ++ l2))); [reflexivity|].
           exists l1, p, l2. auto.
Qed.

(** X1.  [remove_phone] succeeds exactly when some stored phone equals the
    text, and then it takes out the first such phone and nothing else: the
    other phones stay, in their order, and so do the name and the
    birthday. *)
Theorem remove_phone_takes_first_match phone record record' :
  remove_phone phone record = (Ok tt, record') <->
  exists l1 p l2,
    phones record = l1 ++ p :: l2 /\ phone_value p = phone /\
    Forall (fun q => phone_value q <> phone) l1 /\
    record' = mkRecord (name record) (l1 ++ l2) (birthday record).
Proof.
  unfold remove_phone, mbind, method_mbind, method_bind, get_phones.
  destruct (remove_first phone (phones record)) as [l'|] eqn:E.
  - apply remove_first_Some in E as (l1 & p & l2 & E & Hp & Hl1 & ->).
    unfold set_phones. split.
    + intros [= <-]. exists l1, p, l2. auto.
    + intros (l1' & p' & l2' & E' & Hp' & Hl1' & ->).
      assert (H : remove_first phone (phones record) = Some (l1' ++ l2')).
      { apply remove_first_Some. exists l1', p', l2'. auto. }
      assert (H' : remove_first phone (phones record) = Some (l1 ++ l2)).
      { apply remove_first_Some. exists l1, p, l2. auto. }
      rewrite H in H'. injection H' as ->. reflexivity.
  - unfold raise. split; [discriminate|].
    intros (l1 & p & l2 & E' & Hp & Hl1 & _).
    assert (H : remove_first phone (phones record) = Some (l1 ++ l2)).
    { apply remove_first_Some. exists l1, p, l2. auto. }
    congruence.
Qed.

(** X2.  A successful [edit_phone] takes out the first stored phone equal to
    the old text and puts the new phone at the end of the phones that are
    left; the number of phones, the name and the birthday stay the same. *)
Theorem edit_phone_moves_to_the_end old_phone new_phone record record' :
  edit_phone old_phone new_phone record = (Ok tt, record') ->
  exists l1 p l2,
    phones record = l1 ++ p :: l2 /\ phone_value p = old_phone /\
    Forall (fun q => phone_value q <> old_phone) l1 /\
    phones record' = l1 ++ l2 ++ [mkPhone new_phone] /\
    length (phones record') = length (phones record) /\
    name record' = name record /\ birthday record' = birthday record.
Proof.
  pose proof (edit_phone_cases old_phone new_phone record) as H.
  destruct (remove_first old_phone (phones record)) as [l'|] eqn:E;
    rewrite H; [|discriminate].
  rewrite Phone_init_spec. destruct (decide _); [|discriminate].
  intros [= <-]. apply remove_first_Some in E as (l1 & p & l2 & E & Hp & Hl1 & ->).
  exists l1, p, l2. simpl. rewrite E, <- app_assoc.
  repeat split; auto.
  rewrite ?length_app; simpl; rewrite ?length_app; simpl; lia.
Qed.

Lemma edit_phone_moves_to_the_end_witness :
  let record :=
    snd (add_phone (lit "2222222222")
           (snd (add_phone (lit "1111111111") (Record_init (lit "alice"))))) in
  let record' :=
    snd (edit_phone (lit "1111111111") (lit "3333333333") record) in
  exists l1 p l2,
    phones record = l1 ++ p :: l2 /\ phone_value p = lit "1111111111" /\
    Forall (fun q => phone_value q <> lit "1111111111") l1 /\
    phones record' = l1 ++ l2 ++ [mkPhone (lit "3333333333")] /\
    length (phones record') = length (phones record) /\
    name record' = name record /\ birthday record' = birthday record.
Proof.
  intros record record'.
  apply (edit_phone_moves_to_the_end (lit "1111111111") (lit "3333333333")).
  vm_compute. reflexivity.
Defined.

(** X3.  [find_phone] gives the first stored phone whose value is the text,
    and gives nothing exactly when no stored phone has that value. *)
Theorem find_phone_first_match phone record :
  match find_phone phone record with
  | Some p =>
      exists l1 l2, phones record = l1 ++ p :: l2 /\ phone_value p = phone /\
                    Forall (fun q => phone_value q <> phone) l1
  | None => Forall (fun q => phone_value q <> phone) (phones record)
  end.
Proof.
  unfold find_phone. induction (phones record) as [|q l IH]; simpl; [constructor|].
  destruct (str_eqb (phone_value q) phone) eqn:Eq.
  - apply str_eqb_eq in Eq. exists [], l. auto.
  - apply str_eqb_neq in Eq. destruct (List.find _ l) as [p|].
    + destruct IH as (l1 & l2 & -> & Hp & Hl1). exists (q :: l1), l2. auto.
    + now constructor.
Qed.

(** ** More on the book *)

Section MoreDictFacts.
Context {V : Type}.
Implicit Types (d : Dict.dict V) (k : str) (v : V).

Lemma get_set d k v k' :
  Dict.get k' (Dict.set k v d) = if str_eqb k k' then Some v else Dict.get k' d.
Proof.
  induction d as [|[k0 v0] d IH]; simpl.
  - reflexivity.
  - destruct (str_eqb k0 k) eqn:E0; simpl.
    + apply str_eqb_eq in E0. subst k0.
      destruct (str_eqb k k'); reflexivity.
    + rewrite IH. destruct (str_eqb k0 k') eqn:E1; [|reflexivity].
      apply str_eqb_eq in E1. subst k0.
      destruct (str_eqb k k') eqn:E2; [|reflexivity].
      apply str_eqb_eq in E2. subst k'. rewrite str_eqb_refl in E0.
      discriminate.
Qed.

Lemma keys_set d k v :
  Dict.keys (Dict.set k v d) =
  match Dict.get k d with
  | Some _ => Dict.keys d
  | None => Dict.keys d ++ [k]
  end.
Proof.
  induction d as [|[k0 v0] d IH]; simpl; [reflexivity|].
  destruct (str_eqb k0 k) eqn:E0; simpl; [reflexivity|].
  rewrite IH. now destruct (Dict.get k d).
Qed.

Lemma wf_set d k v : Dict.wf d -> Dict.wf (Dict.set k v d).
Proof.
  unfold Dict.wf. rewrite keys_set. intros H.
  destruct (Dict.get k d) eqn:E; [exact H|].
  apply get_None in E. apply NoDup_app. split; [exact H|].
  split; [|apply NoDup_singleton].
  intros x Hx Hx'. apply list_elem_of_In in Hx.
  apply list_elem_of_singleton in Hx'. now subst.
Qed.

Lemma del_None d k : Dict.del k d = None <-> Dict.get k d = None.
Proof.
  induction d as [|[k0 v0] d IH]; simpl; [tauto|].
  destruct (str_eqb k0 k); [split; discriminate|].
  destruct (Dict.del k d); simpl; [|tauto].
  split; [discriminate|]. intros H. apply IH in H. discriminate.
Qed.

Lemma del_Some d k d' :
  Dict.del k d = Some d' ->
  exists d1 v d2, d = d1 ++ (k, v) :: d2 /\ d' = d1 ++ d2 /\
                  ~ In k (Dict.keys d1).
Proof.
  revert d'. induction d as [|[k0 v0] d IH]; intros d'; simpl; [discriminate|].
  destruct (str_eqb k0 k) eqn:E0.
  - apply str_eqb_eq in E0. subst k0. intros [= <-].
    exists [], v0, d. auto.
  - apply str_eqb_neq in E0.
    destruct (Dict.del k d) as [d0|]; [|discriminate]. simpl. intros [= <-].
    destruct (IH d0 eq_refl) as (d1 & v & d2 & -> & -> & Hn).
    exists ((k0, v0) :: d1), v, d2. repeat split; auto.
    simpl. intros [H|H]; auto.
Qed.

Lemma get_app_not_in d1 d2 k :
  ~ In k (Dict.keys d1) -> Dict.get k (d1 ++ d2) = Dict.get k d2.
Proof.
  induction d1 as [|[k0 v0] d1 IH]; simpl; [reflexivity|].
  intros H. destruct (str_eqb k0 k) eqn:E0.
  - apply str_eqb_eq in E0. tauto.
  - apply IH. tauto.
Qed.

Lemma get_app_in d1 d2 k :
  In k (Dict.keys d1) -> Dict.get k (d1 ++ d2) = Dict.get k d1.
Proof.
  induction d1 as [|[k0 v0] d1 IH]; simpl; [tauto|].
  intros H. destruct (str_eqb k0 k) eqn:E0; [reflexivity|].
  apply str_eqb_neq in E0. apply IH. destruct H; [contradiction|assumption].
Qed.

Lemma get_del d k d' k' :
  Dict.wf d -> Dict.del k d = Some d' ->
  Dict.get k' d' = if str_eqb k k' then None else Dict.get k' d.
Proof.
  intros Hwf H. apply del_Some in H as (d1 & v & d2 & -> & -> & Hn).
  unfold Dict.wf, Dict.keys in Hwf. rewrite map_app in Hwf. simpl in Hwf.
  apply NoDup_app in Hwf as (_ & Hdis & Hnd2).
  apply NoDup_cons in Hnd2 as [Hk2 _].
  destruct (str_eqb k k') eqn:E.
  - apply str_eqb_eq in E. subst k'. rewrite get_app_not_in by assumption.
    apply get_None. intros H. apply Hk2. now apply list_elem_of_In.
  - apply str_eqb_neq in E.
    destruct (decide (k' ∈ Dict.keys d1)) as [Hin|Hin];
      rewrite list_elem_of_In in Hin.
    + now rewrite !get_app_in.
    + rewrite !get_app_not_in by assumption. simpl.
      apply str_eqb_neq in E. now rewrite E.
Qed.

Lemma wf_del d k d' : Dict.wf d -> Dict.del k d = Some d' -> Dict.wf d'.
Proof.
  intros Hwf H. apply del_Some in H as (d1 & v & d2 & -> & -> & Hn).
  unfold Dict.wf, Dict.keys in *. rewrite map_app in *. simpl in Hwf.
  apply NoDup_app in Hwf as (H1 & Hdis & Hnd2).
  apply NoDup_cons in Hnd2 as [_ H2].
  apply NoDup_app. split; [exact H1|]. split; [|exact H2].
  intros x Hx Hx'. apply (Hdis x Hx). now right.
Qed.

Lemma del_set_new d k v : Dict.get k d = None -> Dict.del k (Dict.set k v d) = Some d.
Proof.
  induction d as [|[k0 v0] d IH]; simpl.
  - now rewrite str_eqb_refl.
  - destruct (str_eqb k0 k) eqn:E0; [discriminate|]. intros H. simpl.
    now rewrite E0, IH.
Qed.

End MoreDictFacts.

(** X4.  [find] after [add_record]: the name of the record added finds that
    record, whatever the book held under the name before, and every other
    name finds what it found before. *)
Theorem find_add_record record book name_ :
  find name_ (add_record record book) =
  if decide (name_ = name_value (name record)) then Some record
  else find name_ book.
Proof.
  unfold find, add_record. simpl. rewrite get_set.
  destruct (decide _) as [->|Hne].
  - now rewrite str_eqb_refl.
  - destruct (str_eqb _ name_) eqn:E; [|reflexivity].
    apply str_eqb_eq in E. congruence.
Qed.

(** X5.  [delete] raises KeyError exactly for a name the book does not find,
    and the book is then as it was; for a name it finds, the name is not
    found afterwards, every other name finds what it found before, and the
    other entries keep their order. *)
Theorem delete_removes_the_name book name_ :
  Dict.wf (data book) ->
  match delete name_ book with
  | Raise e => e = KeyError name_ /\ find name_ book = None
  | Ok book' =>
      find name_ book <> None /\
      (forall n, find n book' =
                 if decide (n = name_) then None else find n book) /\
      exists d1 record d2,
        data book = d1 ++ (name_, record) :: d2 /\ data book' = d1 ++ d2
  end.
Proof.
  intros Hwf. unfold delete, find.
  destruct (Dict.del name_ (data book)) as [d'|] eqn:E.
  - split; [|split].
    + intros H. apply del_None in H. congruence.
    + intros n. simpl. rewrite (get_del _ _ _ n Hwf E).
      destruct (decide (n = name_)) as [->|Hne].
      * now rewrite str_eqb_refl.
      * destruct (str_eqb name_ n) eqn:En; [|reflexivity].
        apply str_eqb_eq in En. congruence.
    + apply del_Some in E as (d1 & v & d2 & E1 & E2 & _). simpl. eauto.
  - split; [reflexivity|]. now apply del_None.
Qed.

Lemma delete_removes_the_name_witness :
  let book := book_of [contact "alice" "15.06.1990"; contact "bob" "01.01.2000"] in
  match delete (lit "alice") book with
  | Raise e => e = KeyError (lit "alice") /\ find (lit "alice") book = None
  | Ok book' =>
      find (lit "alice") book <> None /\
      (forall n, find n book' =
                 if decide (n = lit "alice") then None else find n book) /\
      exists d1 record d2,
        data book = d1 ++ (lit "alice", record) :: d2 /\ data book' = d1 ++ d2
  end.
Proof.
  intros book. apply (delete_removes_the_name book (lit "alice")).
  wf_by_computation.
Defined.

(** X6.  The keys of a book stay distinct: the empty book has none, and
    [add_record] and [delete] keep distinct keys distinct. *)
Theorem book_keys_stay_distinct book :
  Dict.wf (data book) ->
  (forall record, Dict.wf (data (add_record record book))) /\
  (forall name_ book', delete name_ book = Ok book' -> Dict.wf (data book')).
Proof.
  intros Hwf. split.
  - intros record. now apply wf_set.
  - intros name_ book'. unfold delete.
    destruct (Dict.del name_ (data book)) as [d'|] eqn:E; [|discriminate].
    intros [= <-]. simpl. now apply (wf_del _ _ _ Hwf E).
Qed.

Lemma book_keys_stay_distinct_witness :
  let book := book_of [contact "alice" "15.06.1990"; contact "bob" "01.01.2000"] in
  Dict.wf (data (add_record (contact "alice" "29.02.2000") book)).
Proof.
  intros book. apply (book_keys_stay_distinct book). wf_by_computation.
Defined.

(** X7.  Adding a record under a name the book does not have and deleting
    that name gives back the book as it was. *)
Theorem delete_after_add_record record book :
  find (name_value (name record)) book = None ->
  delete (name_value (name record)) (add_record record book) = Ok book.
Proof.
  unfold find, delete, add_record. simpl. intros H.
  rewrite (del_set_new _ _ _ H). now destruct book.
Qed.

Lemma delete_after_add_record_witness :
  let book := book_of [contact "alice" "15.06.1990"] in
  delete (lit "bob") (add_record (contact "bob" "01.01.2000") book) = Ok book.
Proof.
  intros book. apply (delete_after_add_record (contact "bob" "01.01.2000") book).
  reflexivity.
Defined.

(** ** More on the upcoming birthdays *)

Lemma reported_working_day d :
  valid_date d ->
  valid_date (Spec.reported d) /\ 0 <= weekday (Spec.reported d) <= 4 /\
  toordinal d <= toordinal (Spec.reported d) <= toordinal d + 2.
Proof.
  intros Hv. destruct (weekend_in_range d Hv) as [H5 H6].
  destruct (reported_ordinal d Hv) as (R5 & R6 & R).
  assert (Hw : 0 <= weekday d < 7) by (apply Z.mod_pos_bound; lia).
  destruct (Z.eq_dec (weekday d) 5) as [E5|N5];
    [|destruct (Z.eq_dec (weekday d) 6) as [E6|N6]].
  - specialize (R5 E5). split; [|split; [|lia]].
    + unfold Spec.reported. rewrite E5. simpl. now apply fromordinal_spec, H5.
    + unfold weekday in *. rewrite R5. Z.div_mod_to_equations. lia.
  - specialize (R6 E6). split; [|split; [|lia]].
    + unfold Spec.reported. rewrite E6. simpl. now apply fromordinal_spec, H6.
    + unfold weekday in *. rewrite R6. Z.div_mod_to_equations. lia.
  - rewrite (R N5 N6). split; [exact Hv|]. lia.
Qed.

(** X8.  Whenever [get_upcoming_birthdays] returns, every line is the line
    of a record of the book, and its date is a date of the calendar that
    is no Saturday and no Sunday, not before today and at most two days
    after the end of the window. *)
Theorem upcoming_reports_working_days self today days out :
  Dict.wf (data self) -> valid_date today ->
  get_upcoming_birthdays today days self = Ok out ->
  Forall (fun l => exists r d,
            In r (Dict.values (data self)) /\ l = line r d /\
            valid_date d /\ 0 <= weekday d <= 4 /\
            toordinal today <= toordinal d <= toordinal today + days + 2) out.
Proof.
  intros Hwf Ht H.
  destruct (upcoming_Ok self today days Hwf out H) as [_ Hall].
  rewrite (upcoming_Ok_entries self today days Hwf Ht out H).
  apply List.Forall_forall. intros l Hl.
  apply list_elem_of_In, list_elem_of_omap in Hl as (r & Hr & E).
  apply list_elem_of_In in Hr. unfold Spec.entry in E.
  destruct (birthday r) as [b|] eqn:Eb; [|discriminate].
  destruct (Spec.in_window _ _ _) eqn:Ew; [|discriminate].
  injection E as <-. destruct (Hall r Hr b Eb) as [[_ Hc] _].
  destruct (reported_working_day _ Hc) as (Hv & Hwd & Hord).
  unfold Spec.in_window in Ew. apply andb_true_iff in Ew as [E1 E2].
  apply Z.leb_le in E1, E2.
  exists r, (Spec.reported (Spec.candidate today (birthday_value b))).
  split; [exact Hr|]. split; [reflexivity|]. split; [exact Hv|].
  split; [exact Hwd|lia].
Qed.

Lemma upcoming_reports_working_days_witness :
  let self := book_of [contact "alice" "15.06.1990"; contact "bob" "16.06.2000"] in
  Forall (fun l => exists r d,
            In r (Dict.values (data self)) /\ l = line r d /\
            valid_date d /\ 0 <= weekday d <= 4 /\
            toordinal (Date 2024 6 10) <= toordinal d
            <= toordinal (Date 2024 6 10) + 7 + 2)
    [lit "Contact name: alice, birthday: 17.06.2024";
     lit "Contact name: bob, birthday: 17.06.2024"].
Proof.
  intros self. apply (upcoming_reports_working_days self (Date 2024 6 10) 7).
  - wf_by_computation.
  - valid_by_computation.
  - vm_compute. reflexivity.
Defined.

Lemma loop_body_no_birthday today period r :
  birthday r = None -> loop_body today period r = Ok None.
Proof. unfold loop_body. now intros ->. Qed.

(** X9.  On a book in which no record has a birthday, the empty book among
    them, [get_upcoming_birthdays] returns the empty list for every window
    of at most 999999999 days either way, and raises OverflowError for any
    other. *)
Theorem upcoming_without_birthdays self today days :
  Dict.wf (data self) ->
  (forall r, In r (Dict.values (data self)) -> birthday r = None) ->
  if decide (Z.abs days <= 999999999)
  then get_upcoming_birthdays today days self = Ok []
  else exists msg, get_upcoming_birthdays today days self =
                   Raise (OverflowError msg).
Proof.
  intros Hwf Hnone. unfold get_upcoming_birthdays, new_timedelta.
  destruct (decide _) as [Hd|Hd].
  - destruct (Z.leb_spec (Z.abs days) 999999999); [|lia].
    cbn [mbind res_mbind res_bind].
    rewrite (loop_defined _ _ _ (fun _ => None)).
    + f_equal. simpl. clear. generalize (Dict.values (data self)).
      intros l. induction l as [|r l IH]; [reflexivity|exact IH].
    + intros k v. now apply get_In.
    + intros k v Hin. apply loop_body_no_birthday, Hnone.
      unfold Dict.values. apply in_map_iff. now exists (k, v).
  - destruct (Z.leb_spec (Z.abs days) 999999999); [lia|].
    cbn [mbind res_mbind res_bind]. eauto.
Qed.

Lemma upcoming_without_birthdays_witness :
  get_upcoming_birthdays (Date 2024 6 10) 7
    (book_of [Record_init (lit "alice"); Record_init (lit "bob")]) = Ok [].
Proof.
  apply (upcoming_without_birthdays
           (book_of [Record_init (lit "alice"); Record_init (lit "bob")])
           (Date 2024 6 10) 7).
  - wf_by_computation.
  - intros r Hr. vm_compute in Hr. destruct Hr as [<-|[<-|[]]]; reflexivity.
Defined.

(** The candidate occurrence is at most 365 days ahead. *)
Lemma candidate_within_a_year today b :
  valid_date today -> constructible today b ->
  toordinal (Spec.candidate today b) <= toordinal today + 365.
Proof.
  intros Ht [Hthis Hcand]. unfold Spec.candidate in *. cbv zeta in *.
  destruct (date_gt today _) eqn:Egt.
  - assert (Hlt : toordinal (Date (year today) (month b) (day b))
                  < toordinal today).
    { apply toordinal_lt; [assumption..|].
      rewrite date_cmp_antisym. unfold date_gt in Egt.
      destruct (date_cmp today _); try discriminate. reflexivity. }
    unfold toordinal, ymd2ord in *. simpl in *.
    rewrite days_before_year_succ.
    destruct Hcand as (_ & Hm & _). simpl in Hm.
    unfold days_before_month, leap_day in *.
    destruct (is_leap (year today)), (is_leap (year today + 1)),
      (2 <? month b); simpl in *; lia.
  - assert (Hle : date_le today (Date (year today) (month b) (day b)) = true).
    { unfold date_le, date_gt in *.
      destruct (date_cmp today _); auto; discriminate. }
    destruct Hthis as (_ & Hm & Hd). destruct Ht as (_ & Htm & Htd).
    simpl in *.
    pose proof (day_of_year_bounds _ _ _ Hm Hd).
    pose proof (day_of_year_bounds _ _ _ Htm Htd).
    pose proof (leap_day_range (year today)).
    unfold toordinal, ymd2ord. simpl. lia.
Qed.

Lemma included_all today days (l : list Record_) :
  valid_date today -> 365 <= days ->
  (forall r b, In r l -> birthday r = Some b ->
               constructible today (birthday_value b)) ->
  List.filter (Spec.included today days) l =
  List.filter (fun r => bool_decide (birthday r <> None)) l.
Proof.
  intros Ht Hd Hc. induction l as [|r l IH]; [reflexivity|].
  simpl. rewrite IH by (intros r' b' Hr'; apply Hc; now right).
  replace (Spec.included today days r)
    with (bool_decide (birthday r <> None)); [reflexivity|].
  unfold Spec.included. destruct (birthday r) as [b|] eqn:Eb.
  - rewrite bool_decide_eq_true_2 by discriminate. symmetry.
    assert (C : constructible today (birthday_value b))
      by (apply (Hc r); [now left|assumption]).
    pose proof (candidate_within_a_year today _ Ht C).
    pose proof (candidate_not_before today (birthday_value b)) as Hge.
    rewrite (date_le_ordinal _ _ Ht (proj2 C)) in Hge. apply Z.leb_le in Hge.
    unfold Spec.in_window. apply andb_true_iff. rewrite !Z.leb_le. lia.
  - apply bool_decide_eq_false_2. auto.
Qed.

(** X10.  With a window of 365 days or more, whenever
    [get_upcoming_birthdays] returns, it has a line for every record that
    has a birthday: no birthday is more than 365 days ahead. *)
Theorem upcoming_year_window_lists_all self today days out :
  Dict.wf (data self) -> valid_date today -> 365 <= days ->
  get_upcoming_birthdays today days self = Ok out ->
  Forall2 line_of
    (List.filter (fun r => bool_decide (birthday r <> None))
       (Dict.values (data self))) out.
Proof.
  intros Hwf Ht Hd H.
  destruct (upcoming_Ok self today days Hwf out H) as [_ Hall].
  rewrite <- (included_all today days); [|assumption..|].
  - rewrite (upcoming_Ok_entries self today days Hwf Ht out H).
    apply entries_filter.
  - intros r b Hr Hb. now destruct (Hall r Hr b Hb).
Qed.

Lemma upcoming_year_window_lists_all_witness :
  let self := book_of [contact "alice" "15.06.1990"; Record_init (lit "carol");
                       contact "bob" "09.06.2000"] in
  Forall2 line_of
    (List.filter (fun r => bool_decide (birthday r <> None))
       (Dict.values (data self)))
    [lit "Contact name: alice, birthday: 17.06.2024";
     lit "Contact name: bob, birthday: 09.06.2025"].
Proof.
  intros self.
  apply (upcoming_year_window_lists_all self (Date 2024 6 10) 365).
  - wf_by_computation.
  - valid_by_computation.
  - lia.
  - vm_compute. reflexivity.
Defined.

Lemma in_window_wider today days days' d :
  days <= days' -> Spec.in_window today days d = true ->
  Spec.in_window today days' d = true.
Proof.
  unfold Spec.in_window. rewrite !andb_true_iff, !Z.leb_le. lia.
Qed.

Lemma entry_wider today days days' r l :
  days <= days' -> Spec.entry today days r = Some l ->
  Spec.entry today days' r = Some l.
Proof.
  intros Hd. unfold Spec.entry. destruct (birthday r) as [b|]; [|discriminate].
  destruct (Spec.in_window today days _) eqn:E; [|discriminate].
  now rewrite (in_window_wider _ _ _ _ Hd E).
Qed.

Lemma entries_wider today days days' (l : list Record_) :
  days <= days' ->
  sublist (omap (Spec.entry today days) l) (omap (Spec.entry today days') l).
Proof.
  intros Hd. induction l as [|r l IH]; [constructor|].
  cbn [omap list_omap].
  destruct (Spec.entry today days r) as [x|] eqn:E.
  - rewrite (entry_wider _ _ _ _ _ Hd E). now constructor.
  - destruct (Spec.entry today days' r); [now constructor|exact IH].
Qed.

(** X11.  A wider window only adds lines: when [get_upcoming_birthdays]
    returns for two windows, the result of the narrower one is the result
    of the wider one with some lines left out, no line changed and none
    out of order. *)
Theorem upcoming_wider_window_adds self today days days' out out' :
  Dict.wf (data self) -> valid_date today -> days <= days' ->
  get_upcoming_birthdays today days self = Ok out ->
  get_upcoming_birthdays today days' self = Ok out' ->
  sublist out out'.
Proof.
  intros Hwf Ht Hd H H'.
  rewrite (upcoming_Ok_entries self today days Hwf Ht out H).
  rewrite (upcoming_Ok_entries self today days' Hwf Ht out' H').
  now apply entries_wider.
Qed.

Lemma upcoming_wider_window_adds_witness :
  sublist [lit "Contact name: alice, birthday: 17.06.2024"]
          [lit "Contact name: alice, birthday: 17.06.2024";
           lit "Contact name: bob, birthday: 01.07.2024"].
Proof.
  apply (upcoming_wider_window_adds
           (book_of [contact "alice" "15.06.1990"; contact "bob" "01.07.2000"])
           (Date 2024 6 10) 7 30).
  - wf_by_computation.
  - valid_by_computation.
  - lia.
  - vm_compute. reflexivity.
  - vm_compute. reflexivity.
Defined.

(** ** A birthday and its text *)

Lemma four_digits_checked : all_from four_digits_ok 14 0 = true.
Proof. vm_compute. reflexivity. Qed.

Lemma str_of_int_four_digits n :
  1000 <= n <= 9999 ->
  str_of_int n =
  [48 + n / 1000; 48 + n / 100 mod 10; 48 + n / 10 mod 10; 48 + n mod 10].
Proof.
  intros H. pose proof (all_from_spec _ 14 0 n four_digits_checked) as C.
  cbv beta in C. unfold four_digits_ok in C.
  destruct (Z.ltb_spec n 1000); [lia|]. destruct (Z.ltb_spec 9999 n); [lia|].
  simpl in C. apply bool_decide_eq_true in C; [exact C|].
  change (2 ^ Z.of_nat 14) with 16384. lia.
Qed.

(** The text of a date of four-digit year is of the strict pattern. *)
Lemma strftime_strict d :
  valid_date d -> 1000 <= year d ->
  strict_birthday_text (strftime_dmY d) d.
Proof.
  intros (Hy & Hm & Hd) H1000. unfold MINYEAR, MAXYEAR in Hy.
  assert (Hd31 : day d <= 31).
  { unfold days_in_month, DAYS_IN_MONTH in Hd.
    repeat match type of Hd with
           | context [if ?c then _ else _] => destruct c
           | context [match ?m with _ => _ end] => destruct m
           end; lia. }
  unfold strftime_dmY, pad2. rewrite str_of_int_four_digits by lia.
  exists (48 + day d / 10), (48 + day d mod 10), (48 + month d / 10),
    (48 + month d mod 10), (48 + year d / 1000), (48 + year d / 100 mod 10),
    (48 + year d / 10 mod 10), (48 + year d mod 10).
  split; [reflexivity|]. split.
  - unfold Spec.ascii_digit. repeat constructor; Z.div_mod_to_equations; lia.
  - destruct d as [y m dd]. simpl in *. f_equal; Z.div_mod_to_equations; lia.
Qed.

(** A text of the strict pattern with a year from 1000 is the text of the
    date it reads as. *)
Lemma strict_strftime text d :
  strict_birthday_text text d -> valid_date d -> 1000 <= year d ->
  strftime_dmY d = text.
Proof.
  intros (d1 & d2 & m1 & m2 & y1 & y2 & y3 & y4 & -> & Hascii & ->) Hv H1000.
  unfold Spec.ascii_digit in Hascii.
  repeat match goal with
         | H : Forall _ (_ :: _) |- _ =>
             apply List.Forall_cons_iff in H; destruct H as [? H]
         end.
  destruct Hv as (Hy & _). unfold MINYEAR, MAXYEAR in Hy. simpl in *.
  unfold strftime_dmY, pad2. simpl. rewrite str_of_int_four_digits by lia.
  repeat f_equal; Z.div_mod_to_equations; lia.
Qed.

(** X12.  A birthday and its text go back and forth for years from 1000:
    the text of a birthday, given to [Birthday], makes the same birthday;
    and a text of two digits, two digits and four digits that [Birthday]
    accepts is the text of the birthday it makes. *)
Theorem birthday_text_round_trip :
  (forall d, valid_date d -> 1000 <= year d ->
     Birthday_init (to_str (mkBirthday d)) = Ok (mkBirthday d)) /\
  (forall text d b,
     strict_birthday_text text d -> 1000 <= year d ->
     Birthday_init text = Ok b -> b = mkBirthday d /\ to_str b = text).
Proof.
  split.
  - intros d Hv H1000. apply Birthday_init_Ok, strptime_Ok.
    split; [|exact Hv].
    apply strict_birthday_text_valid; [|exact Hv]. now apply strftime_strict.
  - intros text d [d'] Hs H1000 E.
    apply Birthday_init_Ok, strptime_Ok in E as [Ht Hv].
    rewrite (strict_reading _ _ _ Hs Ht) in *.
    split; [reflexivity|]. now apply strict_strftime.
Qed.

Lemma birthday_text_round_trip_witness :
  Birthday_init (to_str (mkBirthday (Date 1991 8 24))) =
  Ok (mkBirthday (Date 1991 8 24)).
Proof.
  apply (proj1 birthday_text_round_trip); [valid_by_computation|].
  vm_compute. discriminate.
Defined.

(** * The commands of the assistant *)

Import Commands.

Section CommandFacts.
Import Session.

Lemma input_error_state func args s :
  snd (input_error func args s) = snd (func args s).
Proof.
  unfold input_error. destruct (func args s) as [[v|[[]|]] s']; reflexivity.
Qed.

Lemma deref_lookup s r record :
  objects s !! r = Some record -> deref s r = record.
Proof. intros H. unfold deref. now apply list_lookup_total_correct. Qed.

Lemma book_find_refers s name_ r :
  keys_are_names s -> book_find name_ s = Some r ->
  exists record, objects s !! r = Some record /\
                 name_value (name record) = name_ /\ deref s r = record.
Proof.
  intros Hinv H. apply get_Some_In in H as (k & Hin & ->).
  destruct (Hinv _ _ Hin) as (record & Hl & Hn).
  exists record. split; [exact Hl|]. split; [exact Hn|].
  now apply deref_lookup.
Qed.

Lemma call_run r m s record :
  objects s !! r = Some record ->
  call r (run m) s =
  (fst (run m record),
   mkState (<[r := snd (run m record)]> (objects s)) (book s)).
Proof.
  intros H. unfold call. rewrite (deref_lookup _ _ _ H).
  now destruct (run m record).
Qed.

Lemma call_step r m s record :
  objects s !! r = Some record -> step s (snd (call r (run m) s)).
Proof.
  intros H. rewrite (call_run _ _ _ _ H). simpl.
  now apply (step_mutation r record m s).
Qed.

Lemma new_Record_lookup name_ s :
  objects (snd (new_Record name_ s)) !! fst (new_Record name_ s) =
  Some (Record_init name_).
Proof.
  unfold new_Record. simpl.
  rewrite lookup_app_r by lia. now rewrite Nat.sub_diag.
Qed.

Lemma add_new_steps name_ s :
  rtc step s (book_add_record (fst (new_Record name_ s))
                (snd (new_Record name_ s))).
Proof.
  eapply rtc_l; [apply (step_Record name_)|].
  eapply rtc_l; [|apply rtc_refl].
  pose proof (new_Record_lookup name_ s) as H.
  unfold book_add_record. rewrite (deref_lookup _ _ _ H).
  apply (step_add_record _ _ _ H).
Qed.

Lemma rtc_keys_are_names s s' :
  rtc step s s' -> keys_are_names s -> keys_are_names s'.
Proof.
  induction 1 as [|x y z Hxy _ IH]; [auto|].
  intros H. apply IH. now apply (step_keys_are_names x).
Qed.

Lemma add_contact_steps args s :
  keys_are_names s -> rtc step s (snd (add_contact_func args s)).
Proof.
  intros Hinv. unfold add_contact_func.
  destruct args as [|name_ [|phone rest]]; try apply rtc_refl.
  destruct (book_find name_ s) as [r|] eqn:F.
  - destruct phone as [|c phone]; [apply rtc_refl|].
    destruct (book_find_refers _ _ _ Hinv F) as (record & Hl & _).
    pose proof (call_step r (Add_phone (c :: phone)) s record Hl) as St.
    simpl in St. destruct (call r (add_phone (c :: phone)) s) as [[|] s'];
      simpl in *; now apply rtc_once.
  - pose proof (add_new_steps name_ s) as Hs.
    destruct (new_Record name_ s) as [r s1] eqn:N. simpl in Hs.
    destruct phone as [|c phone]; [exact Hs|].
    pose proof (new_Record_lookup name_ s) as Hl. rewrite N in Hl. simpl in Hl.
    assert (Hl' : objects (book_add_record r s1) !! r = Some (Record_init name_))
      by exact Hl.
    pose proof (call_step r (Add_phone (c :: phone)) _ _ Hl') as St.
    simpl in St.
    destruct (call r (add_phone (c :: phone)) (book_add_record r s1))
      as [[|] s']; simpl in *; eapply rtc_r; eauto.
Qed.

Lemma change_contact_steps args s :
  keys_are_names s -> rtc step s (snd (change_contact_func args s)).
Proof.
  intros Hinv. unfold change_contact_func.
  destruct args as [|name_ [|phone rest]]; try apply rtc_refl.
  destruct (book_find name_ s) as [r|] eqn:F; [|apply rtc_refl].
  destruct (book_find_refers _ _ _ Hinv F) as (record & Hl & _).
  change (set_phones []) with (run Clear_phones).
  rewrite (call_run r Clear_phones s record Hl).
  pose proof (step_mutation r record Clear_phones s Hl) as St1.
  cbn [run set_phones fst snd] in *.
  set (s1 := mkState _ _) in *.
  assert (Hl1 : objects s1 !! r =
                Some (mkRecord (name record) [] (birthday record))).
  { apply list_lookup_insert_eq. now apply lookup_lt_Some in Hl. }
  pose proof (call_step r (Add_phone phone) s1 _ Hl1) as St2.
  cbn [run] in St2.
  destruct (call r (add_phone phone) s1) as [[|] s']; cbn [snd] in *;
    (eapply rtc_l; [exact St1|now apply rtc_once]).
Qed.

Lemma add_birthday_steps args s :
  keys_are_names s -> rtc step s (snd (add_birthday_func args s)).
Proof.
  intros Hinv. unfold add_birthday_func.
  destruct args as [|name_ [|text rest]]; try apply rtc_refl.
  destruct (book_find name_ s) as [r|] eqn:F; [|apply rtc_refl].
  destruct (book_find_refers _ _ _ Hinv F) as (record & Hl & _).
  pose proof (call_step r (Add_birthday text) s record Hl) as St.
  simpl in St. destruct (call r (Contact.add_birthday text) s) as [[|] s'];
    simpl in *; now apply rtc_once.
Qed.

Lemma show_phone_state args s : snd (show_phone_func args s) = s.
Proof.
  unfold show_phone_func. destruct args; [reflexivity|].
  now destruct (book_find _ s).
Qed.

Lemma show_birthday_state args s : snd (show_birthday_func args s) = s.
Proof.
  unfold show_birthday_func. destruct args; [reflexivity|].
  now destruct (book_find _ s).
Qed.

Lemma birthdays_state today args s : snd (birthdays_func today args s) = s.
Proof.
  unfold birthdays_func. cbv zeta.
  match goal with |- snd (match ?x with _ => _ end) = _ => destruct x as [|[]] end;
    reflexivity.
Qed.

Lemma command_steps today c args s :
  keys_are_names s -> rtc step s (snd (run_command today c args s)).
Proof.
  intros Hinv. destruct c; simpl;
    unfold add_contact, change_contact, show_phone, Commands.add_birthday,
      show_birthday, birthdays; rewrite input_error_state.
  - now apply add_contact_steps.
  - now apply change_contact_steps.
  - rewrite show_phone_state. apply rtc_refl.
  - now apply add_birthday_steps.
  - rewrite show_birthday_state. apply rtc_refl.
  - rewrite birthdays_state. apply rtc_refl.
Qed.

End CommandFacts.

(** X13.  Every command takes a state a session can reach to a state a
    session can reach, when it returns and when it raises; so after any
    number of commands every key of the book is still the name of the
    record it refers to. *)
Theorem commands_keep_the_session today c args s :
  Session.reachable s ->
  Session.reachable (snd (run_command today c args s)) /\
  Session.keys_are_names (snd (run_command today c args s)).
Proof.
  intros H. pose proof (reachable_keys_are_names s H) as Hinv.
  assert (R : Session.reachable (snd (run_command today c args s))).
  { unfold Session.reachable in *. eapply rtc_trans; [exact H|].
    now apply command_steps. }
  split; [exact R|]. now apply reachable_keys_are_names.
Qed.

Lemma commands_keep_the_session_witness :
  Session.keys_are_names
    (snd (run_command (Date 2024 6 10) Add [lit "alice"; lit "0501234567"]
            Session.init)).
Proof.
  apply (commands_keep_the_session (Date 2024 6 10) Add
           [lit "alice"; lit "0501234567"] Session.init).
  apply rtc_refl.
Defined.

Section ContactOfFacts.
Import Session.

(** Two names of the book do not refer to the same record. *)
Lemma refs_apart s n n' r :
  keys_are_names s -> book_find n s = Some r -> book_find n' s = Some r ->
  n = n'.
Proof.
  intros Hinv H H'.
  destruct (book_find_refers _ _ _ Hinv H) as (record & Hl & Hn & _).
  destruct (book_find_refers _ _ _ Hinv H') as (record' & Hl' & Hn' & _).
  congruence.
Qed.

(** A change of the record under one name is seen under that name and
    under no other. *)
Lemma contact_of_update s name_ r record' n :
  keys_are_names s -> book_find name_ s = Some r ->
  contact_of n (mkState (<[r := record']> (objects s)) (book s)) =
  if decide (n = name_) then Some record' else contact_of n s.
Proof.
  intros Hinv F. unfold contact_of, book_find in *. simpl.
  destruct (book_find_refers _ _ _ Hinv F) as (record & Hl & _).
  destruct (decide (n = name_)) as [->|Hne].
  - rewrite F. apply list_lookup_insert_eq. now apply lookup_lt_Some in Hl.
  - destruct (Dict.get n (book s)) as [r'|] eqn:F'; [|reflexivity].
    apply list_lookup_insert_ne. intros <-.
    apply Hne. now apply (refs_apart s n name_ r).
Qed.

Lemma contact_of_new s name_ n :
  keys_are_names s -> book_find name_ s = None ->
  contact_of n (book_add_record (fst (new_Record name_ s))
                  (snd (new_Record name_ s))) =
  if decide (n = name_) then Some (Record_init name_) else contact_of n s.
Proof.
  intros Hinv F. pose proof (new_Record_lookup name_ s) as Hl.
  unfold contact_of, book_find, book_add_record in *.
  rewrite (deref_lookup _ _ _ Hl). simpl in *. rewrite get_set.
  destruct (decide (n = name_)) as [->|Hne].
  - rewrite str_eqb_refl. exact Hl.
  - destruct (str_eqb name_ n) eqn:E;
      [apply str_eqb_eq in E; congruence|].
    destruct (Dict.get n (book s)) as [r'|] eqn:F'; [|reflexivity].
    destruct (book_find_refers _ _ _ Hinv F') as (record & Hl' & _).
    apply lookup_app_l. now apply lookup_lt_Some in Hl'.
Qed.

Lemma init_keys_are_names : keys_are_names init.
Proof. intros k r []. Qed.

Lemma command_keys_are_names today c args s :
  keys_are_names s -> keys_are_names (snd (run_command today c args s)).
Proof.
  intros H. apply (rtc_keys_are_names s); [|exact H]. now apply command_steps.
Qed.

End ContactOfFacts.

Lemma add_contact_func_phone name_ phone rest s :
  phone <> [] ->
  add_contact_func (name_ :: phone :: rest) s =
  match book_find name_ s with
  | None =>
      let r := fst (new_Record name_ s) in
      let s2 := book_add_record r (snd (new_Record name_ s)) in
      match call r (add_phone phone) s2 with
      | (Ok _, s3) => (Returns (Text (lit "Contact added.")), s3)
      | (Raise e, s3) => (Raises (Exn e), s3)
      end
  | Some r =>
      match call r (add_phone phone) s with
      | (Ok _, s3) => (Returns (Text (lit "Contact updated.")), s3)
      | (Raise e, s3) => (Raises (Exn e), s3)
      end
  end.
Proof.
  intros Hne. unfold add_contact_func.
  destruct phone as [|c phone]; [congruence|].
  destruct (book_find name_ s); [reflexivity|].
  now destruct (new_Record name_ s).
Qed.

Lemma add_phone_cases p record :
  add_phone p record =
  if decide (len p = 10 /\ isdigit p = true)
  then (Ok tt, mkRecord (name record) (phones record ++ [mkPhone p])
                 (birthday record))
  else (Raise ten_digits_error, record).
Proof.
  unfold add_phone, mbind, method_mbind, method_bind, lift.
  rewrite Phone_init_spec. destruct (decide _); reflexivity.
Qed.

Lemma call_add_phone r p s record :
  Session.objects s !! r = Some record ->
  call r (add_phone p) s =
  (fst (add_phone p record),
   Session.mkState (<[r := snd (add_phone p record)]> (Session.objects s))
     (Session.book s)).
Proof. apply (call_run r (Session.Add_phone p) s record). Qed.

(** X14.  [add_contact] with a name and a phone that is not empty.  When
    [Phone] accepts the phone, the answer is "Contact added." for a name
    the book did not have and "Contact updated." for one it had, and the
    contact under the name has the phone after the phones it had.  When
    [Phone] rejects the phone, the answer is the message of its
    ValueError; a contact the book had is as it was, but for a name the
    book did not have a contact without any phone is in the book now.  The
    contacts under other names are as they were. *)
Theorem add_contact_adds_or_updates name_ phone rest s :
  Session.keys_are_names s -> phone <> [] ->
  let after := add_contact (name_ :: phone :: rest) s in
  let before :=
    match contact_of name_ s with
    | Some record => record
    | None => Record_init name_
    end in
  (forall n, n <> name_ -> contact_of n (snd after) = contact_of n s) /\
  if decide (len phone = 10 /\ isdigit phone = true) then
    fst after =
      Returns (Text (match contact_of name_ s with
                     | Some _ => lit "Contact updated."
                     | None => lit "Contact added."
                     end)) /\
    contact_of name_ (snd after) =
      Some (mkRecord (name before) (phones before ++ [mkPhone phone])
              (birthday before))
  else
    fst after = Returns (Text (lit "The number must be 10 digits long")) /\
    contact_of name_ (snd after) = Some before.
Proof.
  intros Hinv Hne after before. subst after before.
  unfold add_contact, input_error.
  rewrite (add_contact_func_phone _ _ _ _ Hne).
  destruct (book_find name_ s) as [r|] eqn:F.
  - destruct (book_find_refers _ _ _ Hinv F) as (record & Hl & _).
    assert (Hc : contact_of name_ s = Some record)
      by (unfold contact_of; now rewrite F).
    rewrite !Hc, (call_add_phone _ _ _ _ Hl), add_phone_cases.
    destruct (decide _) as [Hv|Hv]; unfold ten_digits_error;
      cbn [fst snd]; split.
    + intros n Hn. rewrite contact_of_update with (name_ := name_) by assumption.
      now rewrite decide_False.
    + split; [reflexivity|].
      rewrite contact_of_update with (name_ := name_) by assumption.
      now rewrite decide_True.
    + intros n Hn. rewrite contact_of_update with (name_ := name_) by assumption.
      now rewrite decide_False.
    + split; [reflexivity|].
      rewrite contact_of_update with (name_ := name_) by assumption.
      now rewrite decide_True.
  - cbv zeta.
    assert (Hc : contact_of name_ s = None)
      by (unfold contact_of; now rewrite F).
    rewrite !Hc.
    pose proof (contact_of_new s name_) as Hnew.
    pose proof (add_new_steps name_ s) as Hsteps.
    pose proof (new_Record_lookup name_ s) as Hl.
    set (r := fst (new_Record name_ s)) in *.
    set (s2 := book_add_record r (snd (new_Record name_ s))) in *.
    assert (Hinv2 : Session.keys_are_names s2)
      by now apply (rtc_keys_are_names s).
    assert (Hl2 : Session.objects s2 !! r = Some (Record_init name_)) by exact Hl.
    assert (F2 : book_find name_ s2 = Some r).
    { unfold book_find, s2, book_add_record. cbn [Session.book].
      rewrite (deref_lookup _ _ _ Hl), get_set. cbn. now rewrite str_eqb_refl. }
    rewrite (call_add_phone _ _ _ _ Hl2), add_phone_cases.
    destruct (decide _) as [Hv|Hv]; unfold ten_digits_error;
      cbn [fst snd]; split.
    + intros n Hn. rewrite contact_of_update with (name_ := name_) by assumption.
      rewrite decide_False by assumption. rewrite (Hnew n Hinv F).
      now rewrite decide_False.
    + split; [reflexivity|].
      rewrite contact_of_update with (name_ := name_) by assumption.
      now rewrite decide_True.
    + intros n Hn. rewrite contact_of_update with (name_ := name_) by assumption.
      rewrite decide_False by assumption. rewrite (Hnew n Hinv F).
      now rewrite decide_False.
    + split; [reflexivity|].
      rewrite contact_of_update with (name_ := name_) by assumption.
      now rewrite decide_True.
Qed.

Lemma add_contact_adds_or_updates_witness :
  let s := snd (add_contact [lit "alice"; lit "0501234567"] Session.init) in
  fst (add_contact [lit "bob"; lit "123"] s) =
    Returns (Text (lit "The number must be 10 digits long")) /\
  contact_of (lit "bob") (snd (add_contact [lit "bob"; lit "123"] s)) =
    Some (Record_init (lit "bob")).
Proof.
  intros s.
  assert (Hinv : Session.keys_are_names s).
  { apply (command_keys_are_names (Date 2024 6 10) Add).
    apply init_keys_are_names. }
  pose proof (add_contact_adds_or_updates (lit "bob") (lit "123") [] s Hinv
                ltac:(discriminate)) as [_ H].
  exact H.
Defined.

Lemma contact_of_Some s name_ record :
  Session.keys_are_names s -> contact_of name_ s = Some record ->
  exists r, book_find name_ s = Some r /\ Session.objects s !! r = Some record.
Proof.
  unfold contact_of. intros _ H.
  destruct (book_find name_ s) as [r|]; [eauto|discriminate].
Qed.

Lemma contact_of_None s name_ :
  Session.keys_are_names s -> contact_of name_ s = None ->
  book_find name_ s = None.
Proof.
  unfold contact_of. intros Hinv H.
  destruct (book_find name_ s) as [r|] eqn:F; [|reflexivity].
  destruct (book_find_refers _ _ _ Hinv F) as (record & Hl & _). congruence.
Qed.

(** X15.  [change_contact] with a name and a phone.  For a name the book
    does not have, the answer is "Contact not found. Give correct name,
    Please." and nothing changes.  For a name it has, the phones of the
    contact are thrown away first: when [Phone] accepts the new phone it
    becomes the only phone and the answer is "Contact changed."; when
    [Phone] rejects it the answer is the message of its ValueError and
    the contact is left without any phone.  The name, the birthday and
    the other contacts stay as they were. *)
Theorem change_contact_replaces_the_phones name_ new_phone rest s :
  Session.keys_are_names s ->
  let after := change_contact (name_ :: new_phone :: rest) s in
  match contact_of name_ s with
  | None =>
      after = (Returns (Text contact_not_found), s)
  | Some record =>
      (forall n, n <> name_ -> contact_of n (snd after) = contact_of n s) /\
      if decide (len new_phone = 10 /\ isdigit new_phone = true) then
        fst after = Returns (Text (lit "Contact changed.")) /\
        contact_of name_ (snd after) =
          Some (mkRecord (name record) [mkPhone new_phone] (birthday record))
      else
        fst after = Returns (Text (lit "The number must be 10 digits long")) /\
        contact_of name_ (snd after) =
          Some (mkRecord (name record) [] (birthday record))
  end.
Proof.
  intros Hinv after. subst after.
  unfold change_contact, input_error, change_contact_func.
  destruct (contact_of name_ s) as [record|] eqn:C.
  - destruct (contact_of_Some _ _ _ Hinv C) as (r & F & Hl). rewrite F.
    change (set_phones []) with (Session.run Session.Clear_phones).
    rewrite (call_run r Session.Clear_phones s record Hl).
    cbn [Session.run set_phones fst snd].
    set (record1 := mkRecord (name record) [] (birthday record)).
    set (s1 := Session.mkState _ _).
    assert (Hinv1 : Session.keys_are_names s1).
    { apply (step_keys_are_names s); [|exact Hinv].
      apply (Session.step_mutation r record Session.Clear_phones s Hl). }
    assert (F1 : book_find name_ s1 = Some r) by exact F.
    assert (Hl1 : Session.objects s1 !! r = Some record1).
    { apply list_lookup_insert_eq. now apply lookup_lt_Some in Hl. }
    assert (H1 : forall n, contact_of n s1 =
                           if decide (n = name_) then Some record1
                           else contact_of n s).
    { intros n. apply contact_of_update; assumption. }
    rewrite (call_add_phone _ _ _ _ Hl1), add_phone_cases.
    destruct (decide _) as [Hv|Hv]; unfold ten_digits_error;
      cbn [fst snd]; split.
    + intros n Hn. rewrite contact_of_update with (name_ := name_) by assumption.
      rewrite decide_False by assumption. rewrite H1.
      now rewrite decide_False.
    + split; [reflexivity|].
      rewrite contact_of_update with (name_ := name_) by assumption.
      now rewrite decide_True.
    + intros n Hn. rewrite contact_of_update with (name_ := name_) by assumption.
      rewrite decide_False by assumption. rewrite H1.
      now rewrite decide_False.
    + split; [reflexivity|].
      rewrite contact_of_update with (name_ := name_) by assumption.
      now rewrite decide_True.
  - rewrite (contact_of_None _ _ Hinv C). reflexivity.
Qed.

Lemma change_contact_replaces_the_phones_witness :
  let s := snd (add_contact [lit "alice"; lit "0501234567"] Session.init) in
  fst (change_contact [lit "alice"; lit "123"] s) =
    Returns (Text (lit "The number must be 10 digits long")) /\
  contact_of (lit "alice") (snd (change_contact [lit "alice"; lit "123"] s)) =
    Some (Record_init (lit "alice")).
Proof.
  intros s.
  assert (Hinv : Session.keys_are_names s).
  { apply (command_keys_are_names (Date 2024 6 10) Add).
    apply init_keys_are_names. }
  pose proof (change_contact_replaces_the_phones (lit "alice") (lit "123") []
                s Hinv) as H.
  vm_compute in H. vm_compute. tauto.
Defined.

Lemma Birthday_init_cases text :
  (exists b, Birthday_init text = Ok b) \/
  Birthday_init text = Raise invalid_date_format.
Proof.
  destruct (strptime_dmY text) as [d|e] eqn:E.
  - left. exists (mkBirthday d). now apply Birthday_init_Ok.
  - right. apply Birthday_init_Raise. congruence.
Qed.

Lemma show_birthday_reply name_ rest s :
  Session.keys_are_names s ->
  show_birthday (name_ :: rest) s =
  (Returns (Text (match contact_of name_ s with
                  | Some record =>
                      lit "Contact name: " ++ name_ ++ lit ", birthday: "
                      ++ birthday_str (birthday record)
                  | None => contact_not_found
                  end)), s).
Proof.
  intros Hinv. unfold show_birthday, input_error, show_birthday_func.
  destruct (contact_of name_ s) as [record|] eqn:C.
  - destruct (contact_of_Some _ _ _ Hinv C) as (r & F & Hl). rewrite F.
    now rewrite (deref_lookup _ _ _ Hl).
  - now rewrite (contact_of_None _ _ Hinv C).
Qed.

(** X16.  [add_birthday] with a name and a text, and [show_birthday] after
    it.  For a name the book does not have both answer "Contact not found.
    Give correct name, Please.".  For a name it has: when [Birthday]
    accepts the text, the answer is "Birthday added.", the contact has
    that birthday in place of any it had, its name and phones are as they
    were, and [show_birthday] shows the birthday as DD.MM.YYYY; when
    [Birthday] rejects the text, the answer is "Invalid date format. Use
    DD.MM.YYYY" and the contact is as it was.  A contact without a
    birthday is shown with the birthday "None". *)
Theorem add_birthday_then_show_birthday name_ text rest rest' s :
  Session.keys_are_names s ->
  let after := Commands.add_birthday (name_ :: text :: rest) s in
  let shown_after := fst (show_birthday (name_ :: rest') (snd after)) in
  match contact_of name_ s with
  | None =>
      after = (Returns (Text contact_not_found), s) /\
      shown_after = Returns (Text contact_not_found)
  | Some record =>
      (forall n, n <> name_ -> contact_of n (snd after) = contact_of n s) /\
      match Birthday_init text with
      | Ok b =>
          fst after = Returns (Text (lit "Birthday added.")) /\
          contact_of name_ (snd after) =
            Some (mkRecord (name record) (phones record) (Some b)) /\
          shown_after =
            Returns (Text (lit "Contact name: " ++ name_ ++ lit ", birthday: "
                           ++ strftime_dmY (birthday_value b)))
      | Raise _ =>
          fst after =
            Returns (Text (lit "Invalid date format. Use DD.MM.YYYY")) /\
          contact_of name_ (snd after) = Some record /\
          shown_after =
            Returns (Text (lit "Contact name: " ++ name_ ++ lit ", birthday: "
                           ++ match birthday record with
                              | Some b0 => strftime_dmY (birthday_value b0)
                              | None => lit "None"
                              end))
      end
  end.
Proof.
  intros Hinv after shown_after. subst shown_after after.
  assert (Hinv' : Session.keys_are_names
                    (snd (Commands.add_birthday (name_ :: text :: rest) s)))
    by apply (command_keys_are_names (Date 1 1 1) AddBirthday _ _ Hinv).
  rewrite (show_birthday_reply _ _ _ Hinv'). cbn [fst]. clear Hinv'.
  unfold Commands.add_birthday, input_error, add_birthday_func.
  destruct (contact_of name_ s) as [record|] eqn:C.
  - destruct (contact_of_Some _ _ _ Hinv C) as (r & F & Hl). rewrite F.
    change (Contact.add_birthday text)
      with (Session.run (Session.Add_birthday text)).
    rewrite (call_run r (Session.Add_birthday text) s record Hl).
    cbn [Session.run]. unfold Contact.add_birthday, mbind, method_mbind,
      method_bind, lift, set_birthday.
    destruct (Birthday_init_cases text) as [[b E]|E]; rewrite E;
      unfold invalid_date_format; cbn [fst snd]; split.
    + intros n Hn. rewrite contact_of_update with (name_ := name_) by assumption.
      now rewrite decide_False.
    + split; [reflexivity|].
      rewrite contact_of_update with (name_ := name_) by assumption.
      rewrite decide_True by reflexivity. split; reflexivity.
    + intros n Hn. rewrite contact_of_update with (name_ := name_) by assumption.
      now rewrite decide_False.
    + split; [reflexivity|].
      rewrite contact_of_update with (name_ := name_) by assumption.
      rewrite decide_True by reflexivity. split; [reflexivity|].
      unfold birthday_str. now destruct (birthday record).
  - rewrite (contact_of_None _ _ Hinv C). cbn [snd]. rewrite C.
    split; reflexivity.
Qed.

Lemma add_birthday_then_show_birthday_witness :
  let s := snd (add_contact [lit "alice"; lit "0501234567"] Session.init) in
  fst (show_birthday [lit "alice"]
         (snd (Commands.add_birthday [lit "alice"; lit "24.08.1991"] s))) =
  Returns (Text (lit "Contact name: alice, birthday: 24.08.1991")).
Proof.
  intros s.
  assert (Hinv : Session.keys_are_names s).
  { apply (command_keys_are_names (Date 2024 6 10) Add).
    apply init_keys_are_names. }
  pose proof (add_birthday_then_show_birthday (lit "alice") (lit "24.08.1991")
                [] [] s Hinv) as H.
  vm_compute in H. vm_compute. tauto.
Defined.

(** X17.  Too few arguments.  [add_contact] and [change_contact] given
    fewer than two answer with the message of the ValueError of the
    unpacking, which names how many they got; [add_birthday] given fewer
    than two answers "Please provide both name and birthday.";
    [show_phone] and [show_birthday] given none answer "Contact not
    found.".  None of them changes anything then. *)
Theorem commands_with_too_few_arguments args s :
  (length args < 2)%nat ->
  let unpack :=
    lit "not enough values to unpack (expected at least 2, got "
    ++ str_of_int (Z.of_nat (length args)) ++ lit ")" in
  add_contact args s = (Returns (Text unpack), s) /\
  change_contact args s = (Returns (Text unpack), s) /\
  Commands.add_birthday args s =
    (Returns (Text (lit "Please provide both name and birthday.")), s) /\
  show_phone [] s = (Returns (Text (lit "Contact not found.")), s) /\
  show_birthday [] s = (Returns (Text (lit "Contact not found.")), s).
Proof.
  intros H unpack. subst unpack.
  destruct args as [|a [|b args]]; [| |simpl in H; lia];
    repeat split; reflexivity.
Qed.

Lemma commands_with_too_few_arguments_witness :
  add_contact [lit "alice"] Session.init =
  (Returns (Text (lit "not enough values to unpack (expected at least 2, got 1)")),
   Session.init).
Proof.
  apply (commands_with_too_few_arguments [lit "alice"] Session.init).
  simpl. lia.
Defined.

Section RaiseFacts.

Lemma call_result r m s :
  fst (call r m s) = fst (m (deref s r)).
Proof. unfold call. now destruct (m (deref s r)). Qed.

Lemma add_contact_returns args s :
  exists v, fst (add_contact args s) = Returns v.
Proof.
  unfold add_contact, input_error, add_contact_func.
  destruct args as [|name_ [|phone rest]]; try (eexists; reflexivity).
  destruct (book_find name_ s) as [r|].
  - destruct phone as [|c phone]; [eexists; reflexivity|].
    pose proof (call_result r (add_phone (c :: phone)) s) as E.
    rewrite add_phone_cases in E.
    destruct (call r (add_phone (c :: phone)) s) as [[|e] s']; simpl in E;
      [eexists; reflexivity|].
    destruct (decide _); simpl in E; [discriminate|].
    injection E as ->. eexists. reflexivity.
  - destruct (new_Record name_ s) as [r s1].
    destruct phone as [|c phone]; [eexists; reflexivity|].
    pose proof (call_result r (add_phone (c :: phone))
                  (book_add_record r s1)) as E.
    rewrite add_phone_cases in E.
    destruct (call r (add_phone (c :: phone)) (book_add_record r s1))
      as [[|e] s']; simpl in E; [eexists; reflexivity|].
    destruct (decide _); simpl in E; [discriminate|].
    injection E as ->. eexists. reflexivity.
Qed.

Lemma change_contact_returns args s :
  exists v, fst (change_contact args s) = Returns v.
Proof.
  unfold change_contact, input_error, change_contact_func.
  destruct args as [|name_ [|phone rest]]; try (eexists; reflexivity).
  destruct (book_find name_ s) as [r|]; [|eexists; reflexivity].
  destruct (call r (set_phones []) s) as [x s1].
  pose proof (call_result r (add_phone phone) s1) as E.
  rewrite add_phone_cases in E.
  destruct (call r (add_phone phone) s1) as [[|e] s']; simpl in E;
    [eexists; reflexivity|].
  destruct (decide _); simpl in E; [discriminate|].
  injection E as ->. eexists. reflexivity.
Qed.

Lemma add_birthday_returns args s :
  exists v, fst (Commands.add_birthday args s) = Returns v.
Proof.
  unfold Commands.add_birthday, input_error, add_birthday_func.
  destruct args as [|name_ [|text rest]]; try (eexists; reflexivity).
  destruct (book_find name_ s) as [r|]; [|eexists; reflexivity].
  pose proof (call_result r (Contact.add_birthday text) s) as E.
  unfold Contact.add_birthday at 2 in E.
  unfold mbind, method_mbind, method_bind, lift in E.
  destruct (call r (Contact.add_birthday text) s) as [[|e] s']; simpl in E;
    [eexists; reflexivity|].
  destruct (Birthday_init_cases text) as [[b Eb]|Eb]; rewrite Eb in E;
    simpl in E; [discriminate|].
  injection E as ->. eexists. reflexivity.
Qed.

Lemma show_phone_returns args s :
  exists v, fst (show_phone args s) = Returns v.
Proof.
  unfold show_phone, input_error, show_phone_func.
  destruct args as [|name_ rest]; [eexists; reflexivity|].
  destruct (book_find name_ s); eexists; reflexivity.
Qed.

Lemma show_birthday_returns args s :
  exists v, fst (show_birthday args s) = Returns v.
Proof.
  unfold show_birthday, input_error, show_birthday_func.
  destruct args as [|name_ rest]; [eexists; reflexivity|].
  destruct (book_find name_ s); eexists; reflexivity.
Qed.

Lemma birthdays_returns_or_overflows today args s :
  (exists v, fst (birthdays today args s) = Returns v) \/
  (exists msg, fst (birthdays today args s) = Raises (Exn (OverflowError msg))).
Proof.
  unfold birthdays, input_error, birthdays_func. cbv zeta.
  match goal with
  | |- context [match ?x with Ok _ => _ | Raise _ => _ end] =>
      destruct x as [t|[]]
  end; simpl; eauto.
Qed.

End RaiseFacts.

(** X18.  A command never raises, whatever its arguments and whatever the
    session, with one exception: [birthdays] can raise OverflowError,
    which neither it nor the decorator catches, and it does so for a
    number of days that a [timedelta] cannot hold. *)
Theorem commands_raise_only_overflow today c args s :
  match fst (run_command today c args s) with
  | Returns _ => True
  | Raises e => c = Birthdays /\ exists msg, e = Exn (OverflowError msg)
  end /\
  exists msg,
    fst (birthdays today (lit "1000000000" :: args) s) =
    Raises (Exn (OverflowError msg)).
Proof.
  split.
  - destruct c; simpl.
    + destruct (add_contact_returns args s) as [v ->]. exact I.
    + destruct (change_contact_returns args s) as [v ->]. exact I.
    + destruct (show_phone_returns args s) as [v ->]. exact I.
    + destruct (add_birthday_returns args s) as [v ->]. exact I.
    + destruct (show_birthday_returns args s) as [v ->]. exact I.
    + destruct (birthdays_returns_or_overflows today args s)
        as [[v ->]|[msg ->]]; [exact I|eauto].
  - eexists. unfold birthdays, input_error, birthdays_func. cbv zeta.
    change (PyInt.int (lit "1000000000")) with (Ok 1000000000).
    cbn [mbind res_mbind res_bind].
    unfold get_upcoming_birthdays.
    change (new_timedelta 1000000000)
      with (@Raise timedelta
              (OverflowError
                 (lit "days=1000000000; must have magnitude <= 999999999"))).
    reflexivity.
Qed.

Section PhonesFacts.
Import Session.

Lemma run_phones_ok m record :
  Forall phone_ok (phones record) ->
  Forall phone_ok (phones (snd (run m record))).
Proof.
  intros H. destruct m as [p|p|o n|b|]; simpl.
  - rewrite add_phone_cases. destruct (decide _) as [Hv|]; [|exact H].
    simpl. apply Forall_app. split; [exact H|]. now repeat constructor.
  - unfold remove_phone, mbind, method_mbind, method_bind, get_phones.
    destruct (remove_first p (phones record)) as [l'|] eqn:E; [|exact H].
    apply remove_first_Some in E as (l1 & q & l2 & E & _ & _ & ->).
    simpl. rewrite E in H. apply Forall_app in H as [H1 H2].
    apply Forall_app. split; [exact H1|]. now apply List.Forall_inv_tail in H2.
  - pose proof (edit_phone_cases o n record) as C.
    destruct (remove_first o (phones record)) as [l'|] eqn:E; rewrite C;
      [|exact H].
    apply remove_first_Some in E as (l1 & q & l2 & E & _ & _ & ->).
    rewrite E in H. apply Forall_app in H as [H1 H2].
    apply List.Forall_inv_tail in H2.
    rewrite Phone_init_spec. destruct (decide _) as [Hv|]; simpl.
    + apply Forall_app. split; [apply Forall_app; auto|].
      now repeat constructor.
    + apply Forall_app. auto.
  - unfold Contact.add_birthday, mbind, method_mbind, method_bind, lift.
    destruct (Birthday_init b); exact H.
  - constructor.
Qed.

Lemma step_phones_ok s s' : step s s' -> phones_ok s -> phones_ok s'.
Proof.
  intros Hstep Hok.
  destruct Hstep as [n s|r record s Hr|n d s Hd|r record m s Hr];
    intros r0 record0 Hl; simpl in Hl.
  - apply lookup_app_Some in Hl as [Hl|[_ Hl]]; [now apply (Hok r0)|].
    apply list_lookup_singleton_Some in Hl as [_ <-]. constructor.
  - now apply (Hok r0).
  - now apply (Hok r0).
  - destruct (decide (r0 = r)) as [->|Hne].
    + rewrite list_lookup_insert_eq in Hl by (now apply lookup_lt_Some in Hr).
      injection Hl as <-. apply run_phones_ok. now apply (Hok r).
    + rewrite list_lookup_insert_ne in Hl by auto. now apply (Hok r0).
Qed.

Lemma reachable_phones_ok s : reachable s -> phones_ok s.
Proof.
  unfold reachable. revert s. apply rtc_ind_r.
  - intros r record Hl. discriminate.
  - intros y z _ Hstep Hok. now apply (step_phones_ok y).
Qed.

End PhonesFacts.

(** X19.  In every state a session can reach, and so after any commands,
    every phone of every record is a text of length 10 that [str.isdigit]
    accepts: [add_phone] and [edit_phone] store only phones that [Phone]
    has checked, and no other call adds one. *)
Theorem stored_phones_are_valid s :
  Session.reachable s ->
  (forall r record, Session.objects s !! r = Some record ->
     Forall phone_ok (phones record)) /\
  (forall name_ record, contact_of name_ s = Some record ->
     Forall phone_ok (phones record)) /\
  (forall today c args,
     phones_ok (snd (run_command today c args s))).
Proof.
  intros H. pose proof (reachable_phones_ok s H) as Hok.
  split; [exact Hok|]. split.
  - intros name_ record C. unfold contact_of in C.
    destruct (book_find name_ s) as [r|]; [|discriminate]. now apply (Hok r).
  - intros today c args. apply reachable_phones_ok.
    unfold Session.reachable in *. eapply rtc_trans; [exact H|].
    apply command_steps. now apply reachable_keys_are_names.
Qed.

Lemma stored_phones_are_valid_witness :
  phones_ok (snd (run_command (Date 2024 6 10) Add
                    [lit "alice"; lit "0501234567"] Session.init)).
Proof.
  apply (proj2 (proj2 (stored_phones_are_valid Session.init (rtc_refl _ _)))).
Defined.

(** X20.  [show_phone] for a name of the book returns the record the name
    refers to, which prints as "Contact name: ", the name, ", phones: " and
    the phones with "; " between them; for any other name it answers
    "Contact not found. Give correct name, Please.".  It changes nothing,
    and neither do [show_birthday] and [birthdays]. *)
Theorem show_phone_shows_the_record name_ rest s :
  Session.keys_are_names s ->
  (match contact_of name_ s with
   | Some record =>
       exists r,
         show_phone (name_ :: rest) s = (Returns (TheRecord r), s) /\
         shown s (TheRecord r) =
         lit "Contact name: " ++ name_ ++ lit ", phones: "
         ++ join (lit "; ") (List.map phone_value (phones record))
   | None =>
       show_phone (name_ :: rest) s = (Returns (Text contact_not_found), s)
   end) /\
  (forall today args,
     snd (show_phone args s) = s /\ snd (show_birthday args s) = s /\
     snd (birthdays today args s) = s).
Proof.
  intros Hinv. split.
  - unfold show_phone, input_error, show_phone_func.
    destruct (contact_of name_ s) as [record|] eqn:C.
    + destruct (contact_of_Some _ _ _ Hinv C) as (r & F & Hl). rewrite F.
      exists r. split; [reflexivity|]. unfold shown, Record_str.
      rewrite (deref_lookup _ _ _ Hl).
      destruct (book_find_refers _ _ _ Hinv F) as (record' & Hl' & Hn & _).
      assert (record' = record) as -> by congruence. now rewrite Hn.
    + now rewrite (contact_of_None _ _ Hinv C).
  - intros today args. unfold show_phone, show_birthday, birthdays.
    rewrite !input_error_state, show_phone_state, show_birthday_state,
      birthdays_state. auto.
Qed.

Lemma show_phone_shows_the_record_witness :
  let s := snd (add_contact [lit "alice"; lit "0509876543"]
                  (snd (add_contact [lit "alice"; lit "0501234567"]
                          Session.init))) in
  exists r,
    show_phone [lit "alice"] s = (Returns (TheRecord r), s) /\
    shown s (TheRecord r) =
    lit "Contact name: alice, phones: 0501234567; 0509876543".
Proof.
  intros s.
  assert (Hinv : Session.keys_are_names s).
  { do 2 apply (command_keys_are_names (Date 2024 6 10) Add).
    apply init_keys_are_names. }
  pose proof (proj1 (show_phone_shows_the_record (lit "alice") [] s Hinv)) as H.
  vm_compute in H. vm_compute. exact H.
Defined.

Section BirthdaysFacts.
Import Session.

Lemma int_raises text e :
  PyInt.int text = Raise e -> exists msg, e = ValueError msg.
Proof.
  unfold PyInt.int, PyInt.invalid_literal.
  repeat match goal with
         | |- context [match ?x with _ => _ end] => destruct x
         | |- context [if ?x then _ else _] => destruct x
         end; intros [= <-]; eauto.
Qed.

Lemma new_date_raises y m d e :
  new_date y m d = Raise e -> exists msg, e = ValueError msg.
Proof.
  intros H. destruct (decide (valid_date (Date y m d))) as [Hv|Hv].
  - rewrite (new_date_valid _ _ _ Hv) in H. discriminate.
  - destruct (new_date_invalid _ _ _ Hv) as [msg Hm]. rewrite Hm in H.
    injection H as <-. eauto.
Qed.

(** With a window that ends on a date of the calendar, the body of the loop
    raises nothing but ValueError. *)
Lemma loop_body_raises today days contact e :
  valid_date today -> 1 <= toordinal today + days <= MAXORDINAL ->
  loop_body today (TimeDelta days) contact = Raise e ->
  exists msg, e = ValueError msg.
Proof.
  intros Ht Hlim. unfold loop_body.
  destruct (birthday contact) as [b|]; [|discriminate].
  destruct (new_date (year today) _ _) as [this|e1] eqn:E1;
    cbn [mbind res_mbind res_bind];
    [|intros [= <-]; now apply (new_date_raises _ _ _ _ E1)].
  apply new_date_Ok in E1 as [-> Hthis].
  match goal with
  | |- context [if ?c then new_date ?y ?m ?d else _] =>
      destruct c;
      [destruct (new_date y m d) as [next|e2] eqn:E2;
       cbn [mbind res_mbind res_bind];
       [apply new_date_Ok in E2 as [-> Hnext]
       |intros [= <-]; now apply (new_date_raises _ _ _ _ E2)]
      |cbn [mbind res_mbind res_bind]]
  end.
  - destruct (date_le today _); [|discriminate].
    rewrite (date_add_Ok _ _ Hlim). cbn [mbind res_mbind res_bind].
    destruct (date_le _ _); [|discriminate].
    rewrite (shift_reported _ Hnext). discriminate.
  - destruct (date_le today _); [|discriminate].
    rewrite (date_add_Ok _ _ Hlim). cbn [mbind res_mbind res_bind].
    destruct (date_le _ _); [|discriminate].
    rewrite (shift_reported _ Hthis). discriminate.
Qed.

Lemma loop_raises self today days items : forall acc e,
  valid_date today -> 1 <= toordinal today + days <= MAXORDINAL ->
  (forall k v, In (k, v) items -> Dict.get k (data self) = Some v) ->
  loop self today (TimeDelta days) (Dict.keys items) acc = Raise e ->
  exists msg, e = ValueError msg.
Proof.
  induction items as [|[k v] items IH]; intros acc e Ht Hlim Hget; simpl;
    [discriminate|].
  rewrite (Hget k v) by (now left).
  destruct (loop_body today (TimeDelta days) v) as [x|e1] eqn:E1;
    cbn [mbind res_mbind res_bind].
  - apply IH; auto. intros. apply Hget. now right.
  - intros [= <-]. now apply (loop_body_raises today days v).
Qed.

Lemma upcoming_raises self today days e :
  Dict.wf (data self) -> valid_date today ->
  Z.abs days <= 999999999 -> 1 <= toordinal today + days <= MAXORDINAL ->
  get_upcoming_birthdays today days self = Raise e ->
  exists msg, e = ValueError msg.
Proof.
  intros Hwf Ht Hd Hmax. unfold get_upcoming_birthdays, new_timedelta.
  destruct (Z.leb_spec (Z.abs days) 999999999); [|lia].
  cbn [mbind res_mbind res_bind]. apply loop_raises; auto.
  intros k v. now apply get_In.
Qed.

Lemma step_book_wf s s' : step s s' -> Dict.wf (book s) -> Dict.wf (book s').
Proof.
  intros Hstep Hwf. destruct Hstep as [n s|r record s Hr|n d s Hd|r record m s Hr];
    simpl; auto.
  - now apply wf_set.
  - now apply (wf_del _ _ _ Hwf Hd).
Qed.

Lemma reachable_book_wf s : reachable s -> Dict.wf (book s).
Proof.
  unfold reachable. revert s. apply rtc_ind_r.
  - apply NoDup_nil_2.
  - intros y z _ Hstep Hwf. now apply (step_book_wf y).
Qed.

Lemma resolve_data s :
  keys_are_names s ->
  Forall2 (fun kr kv => fst kv = fst kr /\ objects s !! snd kr = Some (snd kv))
    (book s) (data (resolve s)).
Proof.
  intros Hinv. unfold resolve. simpl.
  assert (H : forall k r, In (k, r) (book s) -> is_Some (objects s !! r)).
  { intros k r Hin. destruct (Hinv k r Hin) as (record & Hl & _). eauto. }
  induction (book s) as [|[k r] d IH]; [constructor|].
  cbn [omap list_omap]. destruct (H k r (or_introl eq_refl)) as [record Hl].
  simpl. rewrite Hl. simpl. constructor; [auto|].
  apply IH. intros k' r' Hin. apply (H k' r'). now right.
Qed.

Lemma resolve_keys s :
  keys_are_names s -> Dict.keys (data (resolve s)) = Dict.keys (book s).
Proof.
  intros Hinv. pose proof (resolve_data s Hinv) as F.
  induction F as [|[k r] [k' v] d d' [E _] _ IH]; [reflexivity|].
  simpl in *. now rewrite E, IH.
Qed.

Lemma resolve_wf s : reachable s -> Dict.wf (data (resolve s)).
Proof.
  intros H. unfold Dict.wf.
  rewrite (resolve_keys s (reachable_keys_are_names s H)).
  now apply reachable_book_wf.
Qed.

Lemma contact_of_resolve s name_ record :
  keys_are_names s -> contact_of name_ s = Some record ->
  In record (Dict.values (data (resolve s))).
Proof.
  intros Hinv C. destruct (contact_of_Some _ _ _ Hinv C) as (r & F & Hl).
  apply get_Some_In in F as (k & Hin & _).
  unfold Dict.values, resolve. simpl. apply in_map_iff.
  exists (k, record). split; [reflexivity|].
  apply list_elem_of_In, list_elem_of_omap. exists (k, r).
  split; [now apply list_elem_of_In|]. simpl. now rewrite Hl.
Qed.

Lemma command_reachable today c args s :
  reachable s -> reachable (snd (run_command today c args s)).
Proof.
  intros H. unfold reachable in *. eapply rtc_trans; [exact H|].
  apply command_steps. now apply reachable_keys_are_names.
Qed.

End BirthdaysFacts.

(** X21.  [birthdays] without an argument asks for 7 days.  With a first
    argument that [int] does not read as a number it answers
    "Error in fetching birthdays", and so it does with further arguments
    after it, which it ignores. *)
Theorem birthdays_argument today s :
  birthdays today [] s = birthdays today [lit "7"] s /\
  (forall a rest, birthdays today (a :: rest) s = birthdays today [a] s) /\
  (forall a rest e,
     PyInt.int a = Raise e ->
     birthdays today (a :: rest) s =
     (Returns (Text (lit "Error in fetching birthdays")), s)).
Proof.
  split; [reflexivity|]. split; [reflexivity|].
  intros a rest e E. destruct (int_raises a e E) as [msg ->].
  unfold birthdays, input_error, birthdays_func. cbv zeta.
  rewrite E. reflexivity.
Qed.

Lemma birthdays_argument_witness :
  birthdays (Date 2024 6 10) [lit "seven"] Session.init =
  (Returns (Text (lit "Error in fetching birthdays")), Session.init).
Proof.
  refine (proj2 (proj2 (birthdays_argument (Date 2024 6 10) Session.init))
            (lit "seven") [] _ _).
  vm_compute. reflexivity.
Defined.

(** X22.  In a year that is not a leap year, [birthdays] answers
    "Error in fetching birthdays" as soon as one contact of the book has
    a birthday on 29 February, for every window that a [timedelta] holds
    and that ends on a date of the calendar: the ValueError of the query
    is caught, and the contacts with a birthday in the window are not
    listed. *)
Theorem birthdays_hides_the_leap_day_error today a rest days name_ record b s :
  Session.reachable s -> valid_date today ->
  is_leap (year today) = false ->
  contact_of name_ s = Some record ->
  birthday record = Some b ->
  month (birthday_value b) = 2 -> day (birthday_value b) = 29 ->
  PyInt.int a = Ok days ->
  Z.abs days <= 999999999 ->
  1 <= toordinal today + days <= MAXORDINAL ->
  birthdays today (a :: rest) s =
  (Returns (Text (lit "Error in fetching birthdays")), s).
Proof.
  intros Hr Ht Hleap C Hb Hm Hd Ea Hdays Hlim.
  pose proof (reachable_keys_are_names s Hr) as Hinv.
  pose proof (resolve_wf s Hr) as Hwf.
  destruct (leap_day_birthday_raises (Session.resolve s) today days record b
              Hwf (contact_of_resolve s name_ record Hinv C) Hb Hm Hd Hleap)
    as [e E].
  destruct (upcoming_raises _ _ _ _ Hwf Ht Hdays Hlim E) as [msg ->].
  unfold birthdays, input_error, birthdays_func. cbv zeta.
  rewrite Ea. cbn [mbind res_mbind res_bind]. rewrite E. reflexivity.
Qed.

Lemma birthdays_hides_the_leap_day_error_witness :
  let today := Date 2025 6 10 in
  let s := snd (run_command today AddBirthday [lit "bob"; lit "12.06.1990"]
             (snd (run_command today Add [lit "bob"; lit "0509876543"]
             (snd (run_command today AddBirthday [lit "alice"; lit "29.02.2000"]
             (snd (run_command today Add [lit "alice"; lit "0501234567"]
                     Session.init))))))) in
  birthdays today [lit "7"] s =
  (Returns (Text (lit "Error in fetching birthdays")), s).
Proof.
  intros today s.
  assert (Hr : Session.reachable s).
  { do 4 apply command_reachable. apply rtc_refl. }
  assert (C : contact_of (lit "alice") s =
              Some (mkRecord (mkName (lit "alice"))
                      [mkPhone (lit "0501234567")]
                      (Some (mkBirthday (Date 2000 2 29))))).
  { vm_compute. reflexivity. }
  refine (birthdays_hides_the_leap_day_error today (lit "7") [] 7
            (lit "alice") _ (mkBirthday (Date 2000 2 29)) s Hr _ _ C _ _ _ _ _ _);
    try reflexivity; try (vm_compute; intuition discriminate).
Defined.
